(** * SPM: a minimal package installer (src/index.js)

    A shallow embedding of the archive-name stripping, the resolver, the
    tree optimizer and the linker of [src/index.js], and the properties of
    them that the specification states.

    Strings are [string]; the JavaScript [Map] passed through resolution is
    a [gmap string string]; arrays are lists; [null] and [undefined] are
    [None].  Asynchronous, throwing code lives in a state-and-exception
    monad over the class [Host], which stands for the packages the source
    requires: semver, node-fetch, the gzip and tar decoders, fs-extra, path,
    child_process.  Recursion that the source does not bound (the resolver
    on a cyclic graph) takes fuel; running out of it is the outcome
    [Pending]. *)

From Stdlib Require Import String Ascii List Bool Arith Lia.
From stdpp Require Import base option list strings gmap.

Local Open Scope string_scope.
Local Open Scope list_scope.

(** ** JavaScript string primitives used by the source *)

Module Js.

(** [s.indexOf(c)] for a one-character needle: [None] stands for [-1]. *)
Fixpoint indexOf (c : ascii) (s : string) : option nat :=
  match s with
  | EmptyString => None
  | String a s' =>
      if Ascii.eqb a c then Some 0
      else match indexOf c s' with
           | Some i => Some (S i)
           | None => None
           end
  end.

(** [s.substr(n)]: the suffix that starts at index [n]. *)
Fixpoint substr (n : nat) (s : string) : string :=
  match n, s with
  | 0, _ => s
  | S _, EmptyString => EmptyString
  | S n', String _ s' => substr n' s'
  end.

(** [s.replace(/^\/+/, '')]: drop every leading slash. *)
Fixpoint stripLeadingSlashes (s : string) : string :=
  match s with
  | String a s' => if Ascii.eqb a "/" then stripLeadingSlashes s' else s
  | EmptyString => EmptyString
  end.

(** [s.startsWith(p)]. *)
Definition startsWith (p s : string) : bool := String.prefix p s.

(** Truthiness of a string: only the empty string is falsy. *)
Definition truthy (s : string) : bool := negb (String.eqb s "").

(** Truthiness of a value that is a string or [null] / [undefined]. *)
Definition truthy_opt (v : option string) : bool :=
  match v with
  | Some s => truthy s
  | None => false
  end.

(** [o[k]] on an object kept as its list of own properties, in key order. *)
Fixpoint prop {A : Type} (k : string) (o : list (string * A)) : option A :=
  match o with
  | [] => None
  | (k', v) :: o' => if String.eqb k' k then Some v else prop k o'
  end.

End Js.

(** ** ArchiveReader: entry-name stripping (src/index.js, getFileName) *)

(** The [for] loop of [getFileName]: [t] iterations, each cutting the text
    up to and including the first slash; [None] is the [return null]. *)
Fixpoint getFileName_loop (t : nat) (entryName : string) : option string :=
  match t with
  | 0 => Some entryName
  | S t' =>
      match Js.indexOf "/" entryName with
      | None => None
      | Some index => getFileName_loop t' (Js.substr (index + 1) entryName)
      end
  end.

(** [getFileName(entryName, virtualPath)].  The first statement stores the
    slash-stripped name in [parsedEntryName]; the loop and the [return]
    read [entryName], so the stored value is never used. *)
Definition getFileName (entryName : string) (virtualPath : nat) : option string :=
  let parsedEntryName := Js.stripLeadingSlashes entryName in
  getFileName_loop virtualPath entryName.

(** The path-stripping rule in the words of the specification (section 4.1):
    remove leading slashes, then remove the first [stripN] components. *)
Definition getFileName_spec (entryName : string) (stripN : nat) : option string :=
  getFileName_loop stripN (Js.stripLeadingSlashes entryName).

(** ** Package trees *)

(** An object [{ name, reference, dependencies }].  The same shape serves as
    a dependency descriptor (only [name] and [reference] are read) and as a
    resolved node.  The project root carries no reference; the only test the
    source makes on it is truthiness, so it is kept as the empty string. *)
Local Unset Elimination Schemes.
Inductive Pkg : Type :=
| mkPkg (name : string) (reference : string) (dependencies : list Pkg).
Local Set Elimination Schemes.

Definition name (p : Pkg) : string := let 'mkPkg n _ _ := p in n.
Definition reference (p : Pkg) : string := let 'mkPkg _ r _ := p in r.
Definition dependencies (p : Pkg) : list Pkg := let 'mkPkg _ _ ds := p in ds.

(** [{ name, reference }], a descriptor read from a manifest. *)
Definition descriptor (n r : string) : Pkg := mkPkg n r [].

(** Induction on trees: a property holds of a node once it holds of all
    the node's children. *)
Section PkgInduction.
Variable P : Pkg -> Prop.
Hypothesis node_case :
  forall n r ds, Forall P ds -> P (mkPkg n r ds).

Fixpoint Pkg_ind' (p : Pkg) : P p :=
  match p with
  | mkPkg n r ds =>
      node_case n r ds
        ((fix all (l : list Pkg) : Forall P l :=
            match l with
            | [] => @List.Forall_nil Pkg P
            | d :: l' => @List.Forall_cons Pkg P d l' (Pkg_ind' d) (all l')
            end) ds)
  end.
End PkgInduction.

(** ** TreeOptimizer (src/index.js, optimizePackageTree) *)

(** [arr.find(dependency => dependency.name === n)]. *)
Definition find_by_name (n : string) (arr : list Pkg) : option Pkg :=
  List.find (fun dependency => String.eqb (name dependency) n) arr.

(** [arr.findIndex(dependency => dependency.name === n)]; [None] is [-1]. *)
Fixpoint findIndex_by_name (n : string) (arr : list Pkg) : option nat :=
  match arr with
  | [] => None
  | dependency :: arr' =>
      if String.eqb (name dependency) n then Some 0
      else match findIndex_by_name n arr' with
           | Some i => Some (S i)
           | None => None
           end
  end.

(** [arr.splice(start)] with the delete count left out: every element from
    [start] to the end goes.  A start of [-1] counts from the end, so the
    last element goes (nothing, when the array is empty). *)
Definition splice_from (start : option nat) (arr : list Pkg) : list Pkg :=
  match start with
  | Some i => take i arr
  | None => take (length arr - 1) arr
  end.

(** The condition [!availableDependency ||
    availableDependency.reference === subDependency.reference]. *)
Definition hoisted_or_subsumed (availableDependency : option Pkg) (subDependency : Pkg) : bool :=
  match availableDependency with
  | None => true
  | Some a => String.eqb (reference a) (reference subDependency)
  end.

(** One turn of the inner loop, for [subDependency]: [deps] is the current
    node's [dependencies] array and [hdeps] is the live
    [hardDependency.dependencies] array. *)
Definition hoist_step (subDependency : Pkg) (st : list Pkg * list Pkg) : list Pkg * list Pkg :=
  let '(deps, hdeps) := st in
  let availableDependency := find_by_name (name subDependency) deps in
  let deps' :=
    match availableDependency with
    | None => deps ++ [subDependency]
    | Some _ => deps
    end in
  let hdeps' :=
    if hoisted_or_subsumed availableDependency subDependency
    then splice_from (findIndex_by_name (name subDependency) hdeps) hdeps
    else hdeps in
  (deps', hdeps').

(** The inner loop over the copy [hardDependency.dependencies.slice()]. *)
Fixpoint hoist_inner (snapshot : list Pkg) (st : list Pkg * list Pkg) : list Pkg * list Pkg :=
  match snapshot with
  | [] => st
  | subDependency :: rest => hoist_inner rest (hoist_step subDependency st)
  end.

(** The outer loop over the copy [dependencies.slice()].  The elements of
    the copy are the objects at the first positions of [dependencies]
    (pushes only append), so the loop is run by position: the object at
    position [i] is read, its array is spliced by the inner loop, and the
    object is put back.  Meanwhile [find] reads only names and references,
    which the splices do not touch. *)
Fixpoint hoist_outer (positions : list nat) (deps : list Pkg) : list Pkg :=
  match positions with
  | [] => deps
  | i :: rest =>
      match deps !! i with
      | Some hardDependency =>
          let '(deps', hdeps') :=
            hoist_inner (dependencies hardDependency) (deps, dependencies hardDependency) in
          hoist_outer rest
            (<[i := mkPkg (name hardDependency) (reference hardDependency) hdeps']> deps')
      | None => deps
      end
  end.

Definition hoist (deps : list Pkg) : list Pkg :=
  hoist_outer (seq 0 (length deps)) deps.

Fixpoint optimizePackageTree (p : Pkg) : Pkg :=
  match p with
  | mkPkg name reference dependencies =>
      mkPkg name reference (hoist (List.map optimizePackageTree dependencies))
  end.

(** The optimizer as the specification words it (section 4.4): the removal
    deletes exactly the entry found by the name lookup, [splice(index, 1)]. *)
Definition remove_at (start : option nat) (arr : list Pkg) : list Pkg :=
  match start with
  | Some i => take i arr ++ drop (S i) arr
  | None => arr
  end.

(** Sibling names are pairwise distinct at every node of the tree. *)
Fixpoint names_distinct (p : Pkg) : Prop :=
  match p with
  | mkPkg _ _ ds =>
      NoDup (List.map name ds) /\
      (fix all (l : list Pkg) : Prop :=
         match l with
         | [] => True
         | d :: l' => names_distinct d /\ all l'
         end) ds
  end.

(** The property carried through the loops: distinct names in the array,
    and below each of its elements. *)
Definition siblings_ok (arr : list Pkg) : Prop :=
  NoDup (List.map name arr) /\ Forall names_distinct arr.

Definition ex_c : Pkg := mkPkg "c" "1.0.0" [].
Definition ex_d1 : Pkg := mkPkg "d" "1.0.0" [].
Definition ex_d2 : Pkg := mkPkg "d" "2.0.0" [].
Definition ex_a : Pkg := mkPkg "a" "1.0.0" [ex_c; ex_d1].

(** [root -> a -> (c@1, d@1)] and [root -> d@2]. *)
Definition ex_tree : Pkg := mkPkg "root" "" [ex_a; ex_d2].

(** [root -> p -> (x@1, a@1, b@1)] and [root -> x@2]. *)
Definition ex_last : Pkg :=
  mkPkg "root" ""
    [mkPkg "p" "1.0.0" [mkPkg "x" "1.0.0" []; mkPkg "a" "1.0.0" []; mkPkg "b" "1.0.0" []];
     mkPkg "x" "2.0.0" []].

(** [root -> a -> c@1] and [root -> b -> c@1]. *)
Definition ex_shared : Pkg :=
  mkPkg "root" "" [mkPkg "a" "1.0.0" [ex_c]; mkPkg "b" "1.0.0" [ex_c]].

(** [root -> a -> c@1] and [root -> b -> c@2]. *)
Definition ex_conflict : Pkg :=
  mkPkg "root" ""
    [mkPkg "a" "1.0.0" [ex_c]; mkPkg "b" "1.0.0" [mkPkg "c" "2.0.0" []]].

(** ** Errors, outcomes, the host *)

(** Where an error raised by a collaborator comes from. *)
Inductive origin : Type :=
| Network | Decoder | Json | FileSystem | Shell | Loader.

(** The values the program can throw: [new Error(message)] built by
    [index.js] itself, the [ReferenceError] of an unbound identifier, and
    an error raised inside a collaborator. *)
Inductive error : Type :=
| Error (message : string)
| ReferenceError (message : string)
| HostError (o : origin) (detail : string).

(** How a promise stands: fulfilled, rejected, or not settled within the
    fuel given to the model. *)
Inductive outcome (A : Type) : Type :=
| Ok (a : A)
| Throw (e : error)
| Pending.
Arguments Ok {A} a.
Arguments Throw {A} e.
Arguments Pending {A}.

(** The fields of a package manifest that the program reads; an object is
    the list of its own properties in key order, an absent key is [None]. *)
Record PackageJson : Type := mkPackageJson {
  pj_dependencies : option (list (string * string));
  pj_bin : option (list (string * string));
  pj_scripts : option (list (string * string));
}.

(** The collaborators of [index.js]: semver, node-fetch, gunzip-maybe with
    tar-stream and tar-fs, JSON, fs-extra, path, child_process and the
    module loader.  A failing call returns [inl] with a description. *)
Class Host : Type := {
  FS : Type;
  Buffer : Type;
  semver_valid : string -> option string;
  semver_validRange : string -> option string;
  semver_satisfies : option string -> string -> bool;
  semver_maxSatisfying : list string -> string -> option string;
  (** [fetch(url)]: the [ok] flag and the body of the response *)
  http_get : string -> string + (bool * Buffer);
  (** [Object.keys((await response.json()).versions)] *)
  response_versions : Buffer -> string + list string;
  (** the entries (header name, contents) a gzipped or plain tar stream
      decodes to, and the decoding error that ends it, if any *)
  untar : Buffer -> list (string * Buffer) * option string;
  (** tar-fs writing one entry under a directory, after the [map] hook has
      replaced the header name *)
  tarfs_write : string -> option string -> Buffer -> FS -> string + FS;
  json_parse : Buffer -> string + PackageJson;
  fs_readFile : string -> FS -> string + Buffer;
  fs_mkdirp : string -> FS -> string + FS;
  fs_symlink : string -> string -> FS -> string + FS;
  (** [require(path)] of a JSON file not loaded before *)
  load_json : string -> FS -> string + PackageJson;
  path_resolve : string -> string -> string;
  path_relative : string -> string -> string;
  (** [exec(script, { cwd, env: { PATH } })] *)
  shell_exec : string -> string -> string -> FS -> string + FS;
  env_PATH : string;
}.

(** The [progress] bar: [total], the count of ticks, and [complete]. *)
Record Pace : Type := mkPace {
  total : nat;
  curr : nat;
  complete : bool;
}.

(** What the program changes while it runs: the file system, the loader's
    cache of required files, the progress bar in use, the URLs requested
    (latest first) and the lines printed (latest first). *)
Record State `{Host} : Type := mkState {
  fs : FS;
  required : gmap string PackageJson;
  pace : Pace;
  requests : list string;
  stdout : list string;
}.
Arguments mkState {_} _ _ _ _ _.

(** A computation that may change the state and settles as an outcome. *)
Definition M `{Host} (A : Type) : Type := State -> outcome A * State.

Section Monad.
Context `{Host}.

Definition ret {A} (a : A) : M A := fun st => (Ok a, st).
Definition throw {A} (e : error) : M A := fun st => (Throw e, st).
Definition pending {A} : M A := fun st => (Pending, st).

(** [await m] followed by [k]: a rejection of [m] skips [k]. *)
Definition bind {A B} (m : M A) (k : A -> M B) : M B := fun st =>
  match m st with
  | (Ok a, st') => k a st'
  | (Throw e, st') => (Throw e, st')
  | (Pending, st') => (Pending, st')
  end.

(** How [Promise.all] settles from the first promise and the rest: it
    rejects when one of them rejects, stays unsettled when one of them
    does, and is fulfilled with all the values otherwise. *)
Definition join_outcome {B} (o : outcome B) (os : outcome (list B)) : outcome (list B) :=
  match o, os with
  | Throw e, _ => Throw e
  | _, Throw e => Throw e
  | Pending, _ => Pending
  | _, Pending => Pending
  | Ok b, Ok bs => Ok (b :: bs)
  end.

(** [Promise.all(arr.map(f))].  The tasks are run one after the other in
    array order, each to its end: the interleaving of concurrent tasks is
    not modelled.  A rejected task does not stop the others.  When several
    tasks reject, the source rejects with the one that rejects first in
    time and the exit of the process cuts the others short; here the first
    in array order wins, so the error and the state after several
    rejections are those of this schedule only. *)
Definition promise_all {A B} (f : A -> M B) : list A -> M (list B) :=
  fix go (arr : list A) : M (list B) :=
    match arr with
    | [] => ret []
    | x :: arr' => fun st =>
        let '(o, st1) := f x st in
        let '(os, st2) := go arr' st1 in
        (join_outcome o os, st2)
    end.

(** A [for ... of] loop whose body awaits. *)
Fixpoint for_each {A} (f : A -> M unit) (arr : list A) : M unit :=
  match arr with
  | [] => ret tt
  | x :: arr' => bind (f x) (fun _ => for_each f arr')
  end.

(** Lift a call into a collaborator that does not touch the file system. *)
Definition host_call {A} (o : origin) (r : string + A) : M A :=
  match r with
  | inr a => ret a
  | inl detail => throw (HostError o detail)
  end.

(** Lift a call into a collaborator that rewrites the file system. *)
Definition fs_update (o : origin) (f : FS -> string + FS) : M unit := fun st =>
  match f (fs st) with
  | inr fs' => (Ok tt, mkState fs' (required st) (pace st) (requests st) (stdout st))
  | inl detail => (Throw (HostError o detail), st)
  end.

Definition console_log (line : string) : M unit := fun st =>
  (Ok tt, mkState (fs st) (required st) (pace st) (requests st) (line :: stdout st)).

(** [pace.total += 1]. *)
Definition pace_total_incr : M unit := fun st =>
  let p := pace st in
  (Ok tt, mkState (fs st) (required st) (mkPace (total p + 1) (curr p) (complete p))
            (requests st) (stdout st)).

(** [pace.tick()]: one more tick; the bar completes once the ticks reach
    the total. *)
Definition tick (p : Pace) : Pace :=
  mkPace (total p) (curr p + 1) (complete p || Nat.leb (total p) (curr p + 1)).

Definition pace_tick : M unit := fun st =>
  (Ok tt, mkState (fs st) (required st) (tick (pace st)) (requests st) (stdout st)).

(** [fetch(url)]: the request is recorded, then the response or the
    network error comes back. *)
Definition fetch (url : string) : M (bool * Buffer) := fun st =>
  let st' := mkState (fs st) (required st) (pace st) (url :: requests st) (stdout st) in
  match http_get url with
  | inr response => (Ok response, st')
  | inl detail => (Throw (HostError Network detail), st')
  end.

(** [require(path)]: a file loaded before comes from the cache. *)
Definition require (path : string) : M PackageJson := fun st =>
  match required st !! path with
  | Some json => (Ok json, st)
  | None =>
      match load_json path (fs st) with
      | inr json =>
          (Ok json, mkState (fs st) (<[path := json]> (required st)) (pace st)
                      (requests st) (stdout st))
      | inl detail => (Throw (HostError Loader detail), st)
      end
  end.

End Monad.

Notation "'let!' x ':=' m 'in' k" := (bind m (fun x => k))
  (at level 10, x name, m at level 100, k at level 200).

(** The double-quote character, for the messages that quote a name. *)
Definition quote : string := String "034"%char EmptyString.

(** ** Identifiers in scope *)

(** The bindings at the top level of [index.js]: its [const]s and its
    function declarations. *)
Definition module_scope : list string :=
  ["fetch"; "semver"; "fs"; "cp"; "util"; "gunzipMaybe"; "Progress"; "tarFs";
   "tar"; "path"; "exec"; "getFileName"; "readFileFromArchive";
   "readPackageJsonFromArchive"; "extractArchiveTo"; "extractNpmArchiveTo";
   "trackProgress"; "linkPackages"; "isVolatileDependency";
   "getPackageDependencyTree"; "getPackageDependencies"; "fetchPackage";
   "getPinnedReference"; "optimizePackageTree"].

(** The globals the source refers to, with [parsedEntryName], which the
    assignment in [getFileName] creates. *)
Definition global_scope : list string :=
  ["require"; "console"; "process"; "Promise"; "Object"; "JSON"; "Buffer";
   "Error"; "Map"; "parsedEntryName"].

Definition identifier_bound (id : string) : bool :=
  existsb (String.eqb id) (module_scope ++ global_scope).

Section Program.
Context `{Host}.

(** A call [id(...)] through a bare identifier: evaluating an identifier
    that is bound nowhere throws a [ReferenceError]. *)
Definition call_free {A} (id : string) (call : M A) : M A :=
  if identifier_bound id then call
  else throw (ReferenceError (id ++ " is not defined")).

(** *** ArchiveReader *)

(** The [entry] handler of [readFileFromArchive] over the entries in
    stream order: the first entry whose stripped name is [fileName]
    resolves the promise, the others are drained. *)
Fixpoint first_match (fileName : string) (virtualPath : nat)
    (entries : list (string * Buffer)) : option Buffer :=
  match entries with
  | [] => None
  | (header_name, data) :: rest =>
      if bool_decide (getFileName header_name virtualPath = Some fileName)
      then Some data
      else first_match fileName virtualPath rest
  end.

Definition not_found_message (fileName : string) : string :=
  "Couldn't find " ++ quote ++ fileName ++ quote ++ " inside the archive".

Definition readFileFromArchive (fileName : string) (buffer : Buffer)
    (virtualPath : nat) : M Buffer :=
  let '(entries, failure) := untar buffer in
  match first_match fileName virtualPath entries with
  | Some data => ret data
  | None =>
      match failure with
      | Some detail => throw (HostError Decoder detail)
      | None => throw (Error (not_found_message fileName))
      end
  end.

Definition readPackageJsonFromArchive (packageBuffer : Buffer) : M Buffer :=
  readFileFromArchive "package.json" packageBuffer 1.

(** [extractArchiveTo]: tar-fs writes each entry under [target], its header
    name replaced by [getFileName]'s result.  When that result is [null],
    what becomes of the entry is the host's answer to a write without a
    name; in tar-fs itself the entry handler throws there, outside the
    promise, which then does not settle. *)
Definition extractArchiveTo (packageBuffer : Buffer) (target : string)
    (virtualPath : nat) : M unit :=
  let '(entries, failure) := untar packageBuffer in
  let! _ := for_each (fun entry : string * Buffer =>
              fs_update FileSystem
                (tarfs_write target (getFileName (fst entry) virtualPath) (snd entry)))
              entries in
  match failure with
  | Some detail => throw (HostError Decoder detail)
  | None => ret tt
  end.

Definition extractNpmArchiveTo (packageBuffer : Buffer) (target : string) : M unit :=
  extractArchiveTo packageBuffer target 1.

(** *** ProgressTracker *)

(** The [finally] block: [if (!pace.complete) { pace.update(1);
    pace.terminate(); }]. *)
Definition finalize (p : Pace) : Pace :=
  if complete p then p else mkPace (total p) (total p) true.

(** [trackProgress(cb)]: a new bar with a total of 1, the callback, and the
    [finally] block once the callback has settled. *)
Definition trackProgress {A} (cb : M A) : M A := fun st =>
  let st0 := mkState (fs st) (required st) (mkPace 1 0 false) (requests st) (stdout st) in
  match cb st0 with
  | (Pending, st1) => (Pending, st1)
  | (o, st1) =>
      (o, mkState (fs st1) (required st1) (finalize (pace st1)) (requests st1) (stdout st1))
  end.

(** *** Resolver *)

Definition isVolatileDependency (volatileDependency : Pkg)
    (available : gmap string string) : bool :=
  let availableReference := available !! name volatileDependency in
  if bool_decide (availableReference = Some (reference volatileDependency)) then false
  else if Js.truthy_opt (semver_validRange (reference volatileDependency))
          && semver_satisfies availableReference (reference volatileDependency)
  then false
  else true.

Definition is_path (reference : string) : bool :=
  existsb (fun prefix => Js.startsWith prefix reference) ["/"; "./"; "../"].

Definition registry_tarball (name reference : string) : string :=
  "https://registry.yarnpkg.com/" ++ name ++ "/-/" ++ name ++ "-" ++ reference ++ ".tgz".

Definition fetch_error_message (reference : string) : string :=
  "Couldn't fetch package " ++ quote ++ reference ++ quote.

Fixpoint fetchPackage (fuel : nat) (name reference : string) : M Buffer :=
  match fuel with
  | 0 => pending
  | S fuel' =>
      if is_path reference then
        fun st => host_call FileSystem (fs_readFile reference (fs st)) st
      else if Js.truthy_opt (semver_valid reference) then
        fetchPackage fuel' name (registry_tarball name reference)
      else
        let! response := fetch reference in
        if negb (fst response) then throw (Error (fetch_error_message reference))
        else ret (snd response)
  end.

Definition unsatisfied_message (reference name : string) : string :=
  "Couldn't find a version matching " ++ quote ++ reference ++ quote
  ++ " for package " ++ quote ++ name ++ quote.

(** The test [semver.validRange(reference) && !semver.valid(reference)]. *)
Definition needs_pinning (reference : string) : bool :=
  Js.truthy_opt (semver_validRange reference)
  && negb (Js.truthy_opt (semver_valid reference)).

Definition getPinnedReference (d : Pkg) : M Pkg :=
  let name := name d in
  let reference := reference d in
  if needs_pinning reference then
    let! response := fetch ("https://registry.yarnpkg.com/" ++ name) in
    let! versions := host_call Json (response_versions (snd response)) in
    match semver_maxSatisfying versions reference with
    | None => throw (Error (unsatisfied_message reference name))
    | Some maxSatisfying => ret (descriptor name maxSatisfying)
    end
  else ret (descriptor name reference).

Definition getPackageDependencies (fuel : nat) (d : Pkg) : M (list Pkg) :=
  let! packageBuffer := fetchPackage fuel (name d) (reference d) in
  let! data := readPackageJsonFromArchive packageBuffer in
  let! packageJson := host_call Json (json_parse data) in
  let dependencies := default [] (pj_dependencies packageJson) in
  ret (List.map (fun kv : string * string => descriptor (fst kv) (snd kv)) dependencies).

Fixpoint getPackageDependencyTree (fuel : nat) (node : Pkg)
    (available : gmap string string) : M Pkg :=
  match fuel with
  | 0 => pending
  | S fuel' =>
      let! resolved :=
        promise_all
          (fun volatileDependency =>
             let! _ := pace_total_incr in
             let! pinnedDependency := getPinnedReference volatileDependency in
             let! subDependencies := getPackageDependencies fuel pinnedDependency in
             let subAvailable :=
               <[name pinnedDependency := reference pinnedDependency]> available in
             let! _ := pace_tick in
             getPackageDependencyTree fuel'
               (mkPkg (name pinnedDependency) (reference pinnedDependency) subDependencies)
               subAvailable)
          (List.filter (fun volatileDependency =>
                          isVolatileDependency volatileDependency available)
             (dependencies node)) in
      ret (mkPkg (name node) (reference node) resolved)
  end.

(** *** Linker *)

Definition bin_directory (cwd : string) : string := cwd ++ "/spm_node_modules/.bin".

(** The loop over [Object.keys(bin)]. *)
Definition link_bins (cwd target : string) (bin : list (string * string)) : M unit :=
  let binTarget := bin_directory cwd in
  for_each (fun entry : string * string =>
              let binName := fst entry in
              let source := path_resolve target (snd entry) in
              let dest := (binTarget ++ "/" ++ binName)%string in
              let! _ := console_log ("bin: " ++ dest) in
              let! _ := fs_update FileSystem (fs_mkdirp (cwd ++ "/spm_node_modules/.bin")) in
              let! link := call_free "relative" (ret (path_relative binTarget source)) in
              fs_update FileSystem (fs_symlink link dest))
    bin.

(** The loop over [['preinstall', 'install', 'postinstall']]. *)
Definition run_scripts (target : string) (scripts : list (string * string)) : M unit :=
  for_each (fun scriptName =>
              match Js.prop scriptName scripts with
              | Some script =>
                  if Js.truthy script then
                    fs_update Shell
                      (shell_exec script target
                         (target ++ "/spm_node_modules/.bin:" ++ env_PATH))
                  else ret tt
              | None => ret tt
              end)
    ["preinstall"; "install"; "postinstall"].

(** The callback mapped over [dependencies]; [recur] is the recursive call
    of the function that maps it. *)
Definition link_dependency (recur : Pkg -> string -> M unit) (cwd : string)
    (dependency : Pkg) : M unit :=
  let target := (cwd ++ "/spm_node_modules/" ++ name dependency)%string in
  let! _ := recur dependency target in
  let! dependencyPackageJson := require (target ++ "/package.json") in
  let bin := default [] (pj_bin dependencyPackageJson) in
  let! _ := link_bins cwd target bin in
  match pj_scripts dependencyPackageJson with
  | Some scripts => run_scripts target scripts
  | None => ret tt
  end.

(** The body of [if (reference) { ... }]. *)
Definition fetch_and_extract (fuel : nat) (name reference cwd : string) : M unit :=
  if Js.truthy reference then
    let! packageBuffer := fetchPackage fuel name reference in
    extractNpmArchiveTo packageBuffer cwd
  else ret tt.

Fixpoint linkPackages (fuel : nat) (node : Pkg) (cwd : string) {struct node} : M unit :=
  match node with
  | mkPkg name reference dependencies =>
      let! _ := pace_total_incr in
      let! _ := getPackageDependencyTree fuel (mkPkg name reference dependencies) ∅ in
      let! _ := fetch_and_extract fuel name reference cwd in
      let! _ := promise_all (link_dependency (linkPackages fuel) cwd) dependencies in
      pace_tick
  end.

(** The variant of [linkPackages] with the call of
    [getPackageDependencyTree] removed; everything else as in the source. *)
Fixpoint linkPackages_without_resolution (fuel : nat) (node : Pkg) (cwd : string)
    {struct node} : M unit :=
  match node with
  | mkPkg name reference dependencies =>
      let! _ := pace_total_incr in
      let! _ := fetch_and_extract fuel name reference cwd in
      let! _ := promise_all
                  (link_dependency (linkPackages_without_resolution fuel) cwd)
                  dependencies in
      pace_tick
  end.

(** *** The entry point *)

(** The first line of [error.stack]. *)
Definition stack (e : error) : string :=
  match e with
  | Error message => "Error: " ++ message
  | ReferenceError message => "ReferenceError: " ++ message
  | HostError _ detail => detail
  end.

(** The [try] block of the entry point, for the manifest [packageJson]
    (its [dependencies] already turned into descriptors). *)
Definition install (fuel : nat) (packageJson : Pkg) (destPath : string) : M unit :=
  let! _ := console_log "Resolving the package tree..." in
  let! packageTree := trackProgress (getPackageDependencyTree fuel packageJson ∅) in
  let! _ := console_log "Linking the packages on the filesystem..." in
  trackProgress (linkPackages fuel (optimizePackageTree packageTree) destPath).

(** The [try] / [catch] of the entry point: the exit code of the process,
    [None] while the installation has not settled. *)
Definition main (fuel : nat) (packageJson : Pkg) (destPath : string)
    (st : State) : option nat * State :=
  match install fuel packageJson destPath st with
  | (Ok _, st') => (Some 0, st')
  | (Throw e, st') => (Some 1, snd (console_log (stack e) st'))
  | (Pending, st') => (None, st')
  end.

(** *** Derived notions used by the statements *)

(** The URL is added to the requests; nothing else changes. *)
Definition requested (url : string) (st : State) : State :=
  mkState (fs st) (required st) (pace st) (url :: requests st) (stdout st).

(** What the last branch of [fetchPackage] does with [reference]: the GET,
    then the [ok] test. *)
Definition http_fetch (reference : string) (st : State) : outcome Buffer * State :=
  match http_get reference with
  | inl detail => (Throw (HostError Network detail), requested reference st)
  | inr (true, body) => (Ok body, requested reference st)
  | inr (false, _) =>
      (Throw (Error ("Couldn't fetch package " ++ quote ++ reference ++ quote)),
       requested reference st)
  end.

(** Two states with the same on-disk layout: the file system, the loader's
    cache and the printed lines agree; the progress bar and the list of
    requests may differ. *)
Definition same_disk (st st' : State) : Prop :=
  fs st = fs st' /\ required st = required st' /\ stdout st = stdout st'.

(** [m] never writes to the disk. *)
Definition disk_neutral {A} (m : M A) : Prop :=
  forall st, same_disk st (snd (m st)).

(** What [m] returns and writes depends on the disk only. *)
Definition respects {A} (m : M A) : Prop :=
  forall st st', same_disk st st' ->
    fst (m st) = fst (m st') /\ same_disk (snd (m st)) (snd (m st')).

(** Whenever [m] is fulfilled, [m'] is fulfilled with the same value and
    the same disk. *)
Definition sim {A} (m m' : M A) : Prop :=
  forall st st', same_disk st st' ->
    forall a, fst (m st) = Ok a ->
      fst (m' st') = Ok a /\ same_disk (snd (m st)) (snd (m' st')).

End Program.

(** ** A small concrete host, to run the model on examples *)

(** Plain [X.Y.Z] versions and the ranges [X.Y.Z] and [^X.Y.Z], read the
    way the semver package reads them. *)
Module Semver.

Fixpoint digits (s : string) (acc : nat) : option nat :=
  match s with
  | EmptyString => Some acc
  | String c s' =>
      let n := nat_of_ascii c in
      if Nat.leb 48 n && Nat.leb n 57 then digits s' (10 * acc + (n - 48)) else None
  end.

Definition number (s : string) : option nat :=
  match s with
  | EmptyString => None
  | _ => digits s 0
  end.

(** The text before the first dot and the text after it. *)
Definition cut (s : string) : option (string * string) :=
  match Js.indexOf "." s with
  | Some i => Some (String.substring 0 i s, Js.substr (i + 1) s)
  | None => None
  end.

Definition parse (s : string) : option (nat * nat * nat) :=
  match cut s with
  | Some (major, rest) =>
      match cut rest with
      | Some (minor, patch) =>
          match number major, number minor, number patch with
          | Some x, Some y, Some z => Some (x, y, z)
          | _, _, _ => None
          end
      | None => None
      end
  | None => None
  end.

Definition caret (r : string) : option (nat * nat * nat) :=
  match r with
  | String "^" v => parse v
  | _ => None
  end.

Definition leb (v w : nat * nat * nat) : bool :=
  let '(a, b, c) := v in
  let '(x, y, z) := w in
  Nat.ltb a x || (Nat.eqb a x && (Nat.ltb b y || (Nat.eqb b y && Nat.leb c z))).

(** [^X.Y.Z] allows the changes that keep the leftmost non-zero number. *)
Definition in_caret (v base : nat * nat * nat) : bool :=
  let '(a, b, c) := v in
  let '(x, y, z) := base in
  leb base v &&
  (if Nat.eqb x 0
   then Nat.eqb a 0 && (if Nat.eqb y 0 then Nat.eqb b 0 && Nat.eqb c z else Nat.eqb b y)
   else Nat.eqb a x).

Definition test (v : nat * nat * nat) (range : string) : bool :=
  match parse range with
  | Some exact => leb exact v && leb v exact
  | None =>
      match caret range with
      | Some base => in_caret v base
      | None => false
      end
  end.

Definition valid (s : string) : option string :=
  match parse s with
  | Some _ => Some s
  | None => None
  end.

Definition validRange (r : string) : option string :=
  match parse r, caret r with
  | None, None => None
  | _, _ => Some r
  end.

Definition satisfies (version : option string) (range : string) : bool :=
  match version with
  | Some s =>
      match parse s with
      | Some v => test v range
      | None => false
      end
  | None => false
  end.

Fixpoint maxSatisfying (versions : list string) (range : string) : option string :=
  match versions with
  | [] => None
  | s :: rest =>
      let best := maxSatisfying rest range in
      if satisfies (Some s) range then
        match best with
        | Some b =>
            match parse s, parse b with
            | Some v, Some w => if leb v w then Some b else Some s
            | _, _ => Some s
            end
        | None => Some s
        end
      else best
  end.

End Semver.

(** What a file or a response body holds in the concrete host. *)
Local Unset Elimination Schemes.
Inductive Blob : Type :=
| Tarball (entries : list (string * Blob))
| Manifest (json : PackageJson)
| Index (versions : list string)
| Text (s : string).
Local Set Elimination Schemes.

(** The host over a table of the URLs that answer: the file system is a map
    from paths to contents, directories are implicit. *)
Definition sim_host (net : list (string * (bool * Blob))) : Host := {|
  FS := gmap string Blob;
  Buffer := Blob;
  semver_valid := Semver.valid;
  semver_validRange := Semver.validRange;
  semver_satisfies := Semver.satisfies;
  semver_maxSatisfying := Semver.maxSatisfying;
  http_get url :=
    match Js.prop url net with
    | Some response => inr response
    | None => inl ("request to " ++ url ++ " failed")%string
    end;
  response_versions body :=
    match body with
    | Index versions => inr versions
    | _ => inl "invalid json response body"
    end;
  untar buffer :=
    match buffer with
    | Tarball entries => (entries, None)
    | _ => ([], Some "Invalid tar header")
    end;
  tarfs_write target header_name data files :=
    match header_name with
    | Some "" => inr files
    | Some n => inr (<[(target ++ "/" ++ n)%string := data]> files)
    | None => inl "The path argument must be of type string"
    end;
  json_parse data :=
    match data with
    | Manifest json => inr json
    | _ => inl "Unexpected token in JSON"
    end;
  fs_readFile path files :=
    match files !! path with
    | Some data => inr data
    | None => inl "ENOENT: no such file or directory"
    end;
  fs_mkdirp _ files := inr files;
  fs_symlink link dest files := inr (<[dest := Text link]> files);
  load_json path files :=
    match files !! path with
    | Some (Manifest json) => inr json
    | _ => inl "Cannot find module"
    end;
  path_resolve from to := (from ++ "/" ++ to)%string;
  path_relative from to := to;
  shell_exec script cwd _ files := inr (<[(cwd ++ "/.script")%string := Text script]> files);
  env_PATH := "/usr/bin";
|}.

Definition initial_state `{Host} (files : FS) : State :=
  mkState files ∅ (mkPace 1 0 false) [] [].

(** A registry tarball: its manifest under the [package/] directory. *)
Definition tarball_of (json : PackageJson) : bool * Blob :=
  (true, Tarball [("package/package.json", Manifest json)]).

Definition manifest_with (deps : list (string * string)) : PackageJson :=
  mkPackageJson (Some deps) None None.

(** A registry in which [a@1.2.0] needs [b@1.0.0], [b@1.0.0] asks for
    [a@^1.0.0], and the later release [a@1.3.0] asks for a version of [c]
    that was never published. *)
Definition registry_world : list (string * (bool * Blob)) :=
  [ ("https://registry.yarnpkg.com/a", (true, Index ["1.2.0"; "1.3.0"]));
    ("https://registry.yarnpkg.com/c", (true, Index ["1.0.0"]));
    ("https://registry.yarnpkg.com/a/-/a-1.2.0.tgz",
      tarball_of (manifest_with [("b", "1.0.0")]));
    ("https://registry.yarnpkg.com/a/-/a-1.3.0.tgz",
      tarball_of (manifest_with [("c", "^5.0.0")]));
    ("https://registry.yarnpkg.com/b/-/b-1.0.0.tgz",
      tarball_of (manifest_with [("a", "^1.0.0")])) ].

Definition registry_project : Pkg := mkPkg "" "" [descriptor "a" "1.2.0"].


(** The tree the resolver builds for [registry_project] in
    [registry_world], and the tree the optimizer makes of it. *)
Definition registry_resolved : Pkg :=
  mkPkg "" "" [mkPkg "a" "1.2.0" [mkPkg "b" "1.0.0" []]].

Definition registry_tree : Pkg :=
  mkPkg "" "" [mkPkg "a" "1.2.0" []; mkPkg "b" "1.0.0" []].

(** A registry with the one package [a@1.0.0], which has an install
    script and no dependencies. *)
Definition leaf_world : list (string * (bool * Blob)) :=
  [ ("https://registry.yarnpkg.com/a/-/a-1.0.0.tgz",
      tarball_of (mkPackageJson None None (Some [("install", "touch installed")]))) ].

(** The same with a [bin] entry in place of the script. *)
Definition bin_world : list (string * (bool * Blob)) :=
  [ ("https://registry.yarnpkg.com/a/-/a-1.0.0.tgz",
      tarball_of (mkPackageJson None (Some [("cli", "./cli.js")]) None)) ].

Definition leaf_tree : Pkg := mkPkg "" "" [mkPkg "a" "1.0.0" []].

(** An archive whose entry names start with a slash. *)
Definition slash_archive : Blob :=
  Tarball [("/package/package.json", Manifest (manifest_with []))].

(** A registry that lists four versions of [a] (scenario 2 of the
    specification). *)
Definition range_world : list (string * (bool * Blob)) :=
  [ ("https://registry.yarnpkg.com/a",
      (false, Index ["1.2.0"; "1.2.5"; "1.3.0"; "2.0.0"])) ].

(** A host with another shell: everything as in [host], except what
    running a script does. *)
Definition with_shell (host : Host)
    (shell : string -> string -> string -> @FS host -> string + @FS host) : Host := {|
  FS := @FS host;
  Buffer := @Buffer host;
  semver_valid := @semver_valid host;
  semver_validRange := @semver_validRange host;
  semver_satisfies := @semver_satisfies host;
  semver_maxSatisfying := @semver_maxSatisfying host;
  http_get := @http_get host;
  response_versions := @response_versions host;
  untar := @untar host;
  tarfs_write := @tarfs_write host;
  json_parse := @json_parse host;
  fs_readFile := @fs_readFile host;
  fs_mkdirp := @fs_mkdirp host;
  fs_symlink := @fs_symlink host;
  load_json := @load_json host;
  path_resolve := @path_resolve host;
  path_relative := @path_relative host;
  shell_exec := shell;
  env_PATH := @env_PATH host;
|}.

(** A shell in which the command [exit 1] fails and any other command
    leaves a mark in its working directory. *)
Definition strict_shell (script cwd PATH : string) (files : gmap string Blob) :
    string + gmap string Blob :=
  if String.eqb script "exit 1" then inl "Command failed: exit 1"
  else inr (<[(cwd ++ "/.script")%string := Text script]> files).

(** A registry whose tarball of [a@1.0.0] holds no manifest. *)
Definition broken_world : list (string * (bool * Blob)) :=
  [ ("https://registry.yarnpkg.com/a/-/a-1.0.0.tgz",
      (true, Tarball [("package/index.js", Text "exports.x = 1")])) ].

(** A manifest with three scripts, the second of which fails in
    [strict_shell], and one with no script to run at install time. *)
Definition failing_scripts : list (string * string) :=
  [("preinstall", "mkdir build"); ("install", "exit 1"); ("postinstall", "echo done")].

Definition idle_scripts : list (string * string) :=
  [("test", "jest"); ("install", "")].

(** A file system with a local tarball. *)
Definition local_files : gmap string Blob :=
  {[ "./a.tgz" := Tarball [("package/package.json", Manifest (manifest_with []))] ]}.

(** ** Notions used by the further properties *)

(** The number of slashes in a name. *)
Fixpoint count_slashes (s : string) : nat :=
  match s with
  | EmptyString => 0
  | String a s' => (if Ascii.eqb a "/" then 1 else 0) + count_slashes s'
  end.

(** What identifies a package: its name and its reference. *)
Definition key (d : Pkg) : string * string := (name d, reference d).

(** [P] holds of the name and the reference of every node below the root
    of the tree. *)
Fixpoint every (P : string -> string -> Prop) (t : Pkg) : Prop :=
  match t with
  | mkPkg _ _ ds =>
      (fix all (l : list Pkg) : Prop :=
         match l with
         | [] => True
         | d :: l' => (P (name d) (reference d) /\ every P d) /\ all l'
         end) ds
  end.

(** The number of nodes of a tree, and of the trees of an array. *)
Fixpoint size (t : Pkg) : nat :=
  match t with
  | mkPkg _ _ ds =>
      S ((fix sum (l : list Pkg) : nat :=
            match l with
            | [] => 0
            | d :: l' => size d + sum l'
            end) ds)
  end.

Fixpoint sizes (arr : list Pkg) : nat :=
  match arr with
  | [] => 0
  | d :: arr' => size d + sizes arr'
  end.

(** [Q] holds of every node below the root of a resolved tree, each taken
    with the [available] map its resolution started from: the map of the
    parent, extended by the parent's own name and reference. *)
Fixpoint below (Q : gmap string string -> string -> string -> Prop)
    (available : gmap string string) (t : Pkg) : Prop :=
  match t with
  | mkPkg _ _ ds =>
      (fix all (l : list Pkg) : Prop :=
         match l with
         | [] => True
         | c :: l' =>
             (Q available (name c) (reference c)
              /\ below Q (<[name c := reference c]> available) c)
             /\ all l'
         end) ds
  end.

Section Frames.
Context `{Host}.

(** [m] leaves the component [proj] of the state as it found it, however
    it settles. *)
Definition keeps {X A : Type} (proj : State -> X) (m : M A) : Prop :=
  forall st, proj (snd (m st)) = proj st.

(** When [m] is fulfilled, it has raised [pace.total] by [dt] and ticked
    [dc] times, up to a common number of both. *)
Definition balanced {A : Type} (dt dc : nat) (m : M A) : Prop :=
  forall st a, fst (m st) = Ok a ->
    total (pace (snd (m st))) + curr (pace st) + dc
    = total (pace st) + curr (pace (snd (m st))) + dt.

(** The state in which [trackProgress] starts its callback. *)
Definition with_new_bar (st : State) : State :=
  mkState (fs st) (required st) (mkPace 1 0 false) (requests st) (stdout st).

End Frames.

(** ** Calls of [getPinnedReference] in a run *)

Section Calls.
Context `{Host}.

(** The callback that [getPackageDependencyTree] maps over the volatile
    dependencies, with [recur] for the recursive call. *)
Definition resolve_task (recur : Pkg -> gmap string string -> M Pkg) (fuel : nat)
    (available : gmap string string) (volatileDependency : Pkg) : M Pkg :=
  let! _ := pace_total_incr in
  let! pinnedDependency := getPinnedReference volatileDependency in
  let! subDependencies := getPackageDependencies fuel pinnedDependency in
  let subAvailable :=
    <[name pinnedDependency := reference pinnedDependency]> available in
  let! _ := pace_tick in
  recur (mkPkg (name pinnedDependency) (reference pinnedDependency) subDependencies)
    subAvailable.

(** The dependencies of [node] that [available] does not satisfy. *)
Definition volatile (available : gmap string string) (node : Pkg) : list Pkg :=
  List.filter (fun volatileDependency =>
                 isVolatileDependency volatileDependency available)
    (dependencies node).

(** In the run of [Promise.all] over [before ++ x :: after] from [st], no
    task other than the task of [x] rejects. *)
Definition alone {A B : Type} (f : A -> M B) (before : list A) (x : A)
    (after : list A) (st : State) : Prop :=
  (forall e, fst (promise_all f before st) <> Throw e) /\
  (forall e,
     fst (promise_all f after (snd (f x (snd (promise_all f before st)))))
     <> Throw e).

(** [resolution_calls sole fuel node available st d]: the run of
    [getPackageDependencyTree fuel node available] from [st] calls
    [getPinnedReference] on [d], for a volatile dependency of the node
    itself or, below a dependency that was pinned and whose manifest was
    read, in the recursive call.  With [sole = true], no other task of
    the arrays on the way to the call rejects. *)
Inductive resolution_calls (sole : bool) :
    nat -> Pkg -> gmap string string -> State -> Pkg -> Prop :=
| calls_here (fuel : nat) (node : Pkg) (available : gmap string string)
    (st : State) (before after : list Pkg) (d : Pkg) :
    volatile available node = before ++ d :: after ->
    (sole = true ->
     alone (resolve_task (getPackageDependencyTree fuel) (S fuel) available)
       before d after st) ->
    resolution_calls sole (S fuel) node available st d
| calls_below (fuel : nat) (node : Pkg) (available : gmap string string)
    (st : State) (before after : list Pkg) (c p : Pkg) (subs : list Pkg)
    (s2 s3 : State) (d : Pkg) :
    volatile available node = before ++ c :: after ->
    getPinnedReference c
      (snd (pace_total_incr
              (snd (promise_all
                      (resolve_task (getPackageDependencyTree fuel) (S fuel) available)
                      before st))))
      = (Ok p, s2) ->
    getPackageDependencies (S fuel) p s2 = (Ok subs, s3) ->
    resolution_calls sole fuel (mkPkg (name p) (reference p) subs)
      (<[name p := reference p]> available) (snd (pace_tick s3)) d ->
    (sole = true ->
     alone (resolve_task (getPackageDependencyTree fuel) (S fuel) available)
       before c after st) ->
    resolution_calls sole (S fuel) node available st d.

(** [link_calls sole fuel node cwd st d]: the run of [linkPackages fuel
    node cwd] from [st] calls [getPinnedReference] on [d], in the
    resolution it makes for the node itself or, once that resolution and
    the node's extraction are done, while it links one of the node's
    dependencies. *)
Inductive link_calls (sole : bool) (fuel : nat) :
    Pkg -> string -> State -> Pkg -> Prop :=
| link_calls_here (n r : string) (ds : list Pkg) (cwd : string) (st : State)
    (d : Pkg) :
    resolution_calls sole fuel (mkPkg n r ds) ∅ (snd (pace_total_incr st)) d ->
    link_calls sole fuel (mkPkg n r ds) cwd st d
| link_calls_below (n r : string) (ds : list Pkg) (cwd : string) (st : State)
    (t : Pkg) (s1 s2 : State) (before after : list Pkg) (c d : Pkg) :
    getPackageDependencyTree fuel (mkPkg n r ds) ∅ (snd (pace_total_incr st))
      = (Ok t, s1) ->
    fetch_and_extract fuel n r cwd s1 = (Ok tt, s2) ->
    ds = before ++ c :: after ->
    link_calls sole fuel c (cwd ++ "/spm_node_modules/" ++ name c)%string
      (snd (promise_all (link_dependency (linkPackages fuel) cwd) before s2)) d ->
    (sole = true ->
     alone (link_dependency (linkPackages fuel) cwd) before c after s2) ->
    link_calls sole fuel (mkPkg n r ds) cwd st d.

(** [main_calls sole fuel packageJson destPath st d]: the installation
    calls [getPinnedReference] on [d], while it resolves the manifest or,
    the manifest resolved, while it links the optimized tree. *)
Inductive main_calls (sole : bool) (fuel : nat) (packageJson : Pkg)
    (destPath : string) (st : State) (d : Pkg) : Prop :=
| calls_resolving :
    resolution_calls sole fuel packageJson ∅
      (with_new_bar (snd (console_log "Resolving the package tree..." st))) d ->
    main_calls sole fuel packageJson destPath st d
| calls_linking (packageTree : Pkg) (s1 : State) :
    getPackageDependencyTree fuel packageJson ∅
      (with_new_bar (snd (console_log "Resolving the package tree..." st)))
      = (Ok packageTree, s1) ->
    link_calls sole fuel (optimizePackageTree packageTree) destPath
      (with_new_bar
         (snd (console_log "Linking the packages on the filesystem..." s1))) d ->
    main_calls sole fuel packageJson destPath st d.

End Calls.

(** * Properties *)

(** ** Entry-name stripping *)

Example getFileName_registry_entry :
  getFileName "package/lib/index.js" 1 = Some "lib/index.js".
Proof. reflexivity. Qed.

Example getFileName_too_short : getFileName "package" 1 = None.
Proof. reflexivity. Qed.

Example getFileName_exact_components : getFileName "package/" 1 = Some "".
Proof. reflexivity. Qed.

Lemma stripLeadingSlashes_no_slash (s : string) :
  Js.startsWith "/" s = false -> Js.stripLeadingSlashes s = s.
Proof.
  destruct s as [|a s]; simpl; [reflexivity|].
  unfold Js.startsWith; simpl.
  destruct (Ascii.ascii_dec "/" a) as [<-|Hne].
  - destruct s; discriminate.
  - intros _. destruct (Ascii.eqb_spec a "/") as [->|]; [contradiction|reflexivity].
Qed.

(** On a name that does not start with a slash the source and the rule of
    the specification agree. *)
Lemma getFileName_agrees_without_leading_slash (s : string) (n : nat) :
  Js.startsWith "/" s = false -> getFileName s n = getFileName_spec s n.
Proof.
  intros Hs. unfold getFileName, getFileName_spec.
  now rewrite stripLeadingSlashes_no_slash.
Qed.

(** A name with fewer components than the strip count has no stripped
    name: [getFileName] returns [null]. *)
Lemma getFileName_loop_no_slash (s : string) (n : nat) :
  Js.indexOf "/" s = None -> getFileName_loop (S n) s = None.
Proof. intros Hs. simpl. now rewrite Hs. Qed.

(** C1 (the code departs from the claim).  For the header name
    ["/package/package.json"] and a strip count of 1 the rule of the
    specification gives ["package.json"], while [getFileName] keeps the
    leading slash in play: the first cut removes only the empty component
    in front of it and the result is ["package/package.json"].  With a
    strip count of 0 the leading slash stays in the name. *)
Theorem getFileName_keeps_leading_slash :
  getFileName "/package/package.json" 1 = Some "package/package.json" /\
  getFileName_spec "/package/package.json" 1 = Some "package.json" /\
  getFileName "/package.json" 0 = Some "/package.json" /\
  getFileName_spec "/package.json" 0 = Some "package.json".
Proof. repeat split; reflexivity. Qed.

(** ** TreeOptimizer *)

Lemma names_distinct_node (n r : string) (ds : list Pkg) :
  names_distinct (mkPkg n r ds) <->
  NoDup (List.map name ds) /\ Forall names_distinct ds.
Proof.
  simpl. apply and_iff_compat_l.
  induction ds as [|d ds IH]; simpl.
  - split; auto.
  - rewrite IH, Forall_cons. reflexivity.
Qed.

Lemma name_optimizePackageTree (p : Pkg) : name (optimizePackageTree p) = name p.
Proof. now destruct p. Qed.

Lemma reference_optimizePackageTree (p : Pkg) :
  reference (optimizePackageTree p) = reference p.
Proof. now destruct p. Qed.

Lemma find_by_name_None (n : string) (arr : list Pkg) :
  find_by_name n arr = None -> ~ In n (List.map name arr).
Proof.
  unfold find_by_name. induction arr as [|d arr IH]; simpl; [tauto|].
  destruct (String.eqb_spec (name d) n) as [|Hne]; [discriminate|].
  intros Hf [Heq|Hin]; [contradiction | now apply IH].
Qed.

(** What [splice] leaves is a prefix of the array. *)
Lemma splice_from_take (start : option nat) (arr : list Pkg) :
  exists k, splice_from start arr = take k arr.
Proof. destruct start; simpl; eauto. Qed.

Lemma siblings_ok_take (k : nat) (arr : list Pkg) :
  siblings_ok arr -> siblings_ok (take k arr).
Proof.
  intros [Hnd Hall]. split.
  - rewrite <- firstn_map. eapply sublist_NoDup; [exact Hnd | apply sublist_take].
  - now apply Forall_take.
Qed.

Lemma hoist_step_ok (sub : Pkg) (deps hdeps : list Pkg) :
  names_distinct sub -> siblings_ok deps -> siblings_ok hdeps ->
  siblings_ok (fst (hoist_step sub (deps, hdeps))) /\
  siblings_ok (snd (hoist_step sub (deps, hdeps))) /\
  exists pushed, fst (hoist_step sub (deps, hdeps)) = deps ++ pushed.
Proof.
  intros Hsub [Hnd Hall] Hh. unfold hoist_step.
  destruct (find_by_name (name sub) deps) as [a|] eqn:Hfind; simpl.
  - split; [now split|]. split.
    + destruct (String.eqb _ _); [|exact Hh].
      destruct (splice_from_take (findIndex_by_name (name sub) hdeps) hdeps) as [k ->].
      now apply siblings_ok_take.
    + exists []. now rewrite app_nil_r.
  - split; [|split].
    + split.
      * rewrite List.map_app. simpl. apply NoDup_app. split; [exact Hnd|].
        split; [|apply NoDup_singleton].
        intros x Hx Hx'. apply list_elem_of_In in Hx, Hx'.
        destruct Hx' as [<-|[]]. now apply (find_by_name_None _ _ Hfind).
      * apply Forall_app. split; [exact Hall|]. now constructor.
    + destruct (splice_from_take (findIndex_by_name (name sub) hdeps) hdeps) as [k ->].
      now apply siblings_ok_take.
    + now exists [sub].
Qed.

Lemma hoist_inner_ok (snapshot deps hdeps : list Pkg) :
  Forall names_distinct snapshot -> siblings_ok deps -> siblings_ok hdeps ->
  siblings_ok (fst (hoist_inner snapshot (deps, hdeps))) /\
  siblings_ok (snd (hoist_inner snapshot (deps, hdeps))) /\
  exists pushed, fst (hoist_inner snapshot (deps, hdeps)) = deps ++ pushed.
Proof.
  revert deps hdeps.
  induction snapshot as [|sub rest IH]; intros deps hdeps Hsnap Hd Hh;
    cbn [hoist_inner].
  - split; [exact Hd|]. split; [exact Hh|]. exists []. now rewrite app_nil_r.
  - inversion Hsnap as [|? ? Hsub Hrest]; subst.
    destruct (hoist_step_ok sub deps hdeps Hsub Hd Hh) as (Hd1 & Hh1 & pushed1 & Hp1).
    destruct (hoist_step sub (deps, hdeps)) as [deps1 hdeps1].
    cbn [fst snd] in *. destruct (IH deps1 hdeps1 Hrest Hd1 Hh1) as (Hd2 & Hh2 & pushed2 & Hp2).
    split; [exact Hd2|]. split; [exact Hh2|].
    exists (pushed1 ++ pushed2). rewrite Hp2, Hp1. now rewrite app_assoc.
Qed.

Lemma hoist_outer_ok (positions : list nat) (deps : list Pkg) :
  siblings_ok deps -> siblings_ok (hoist_outer positions deps).
Proof.
  revert deps. induction positions as [|i rest IH]; intros deps Hd; simpl; [exact Hd|].
  destruct (deps !! i) as [hd|] eqn:Hi; [|exact Hd].
  assert (Hhd : names_distinct hd).
  { destruct Hd as [_ Hall]. rewrite Forall_forall in Hall.
    apply Hall. eapply list_elem_of_lookup_2. exact Hi. }
  destruct hd as [n r hds]. apply names_distinct_node in Hhd as Hh.
  simpl. destruct (hoist_inner_ok hds deps hds (proj2 Hh) Hd Hh) as (Hd1 & Hh1 & pushed & Hp).
  destruct (hoist_inner hds (deps, hds)) as [deps1 hdeps1]. simpl in *.
  apply IH. destruct Hd1 as [Hnd1 Hall1]. split.
  - change (List.map name (<[i:=mkPkg n r hdeps1]> deps1)) with
      (name <$> <[i:=mkPkg n r hdeps1]> deps1).
    rewrite list_fmap_insert. simpl.
    rewrite list_insert_id; [exact Hnd1|].
    rewrite list_lookup_fmap, Hp, lookup_app_l by (eapply lookup_lt_Some; exact Hi).
    now rewrite Hi.
  - apply Forall_insert; [exact Hall1|]. now apply names_distinct_node.
Qed.

Lemma hoist_ok (deps : list Pkg) : siblings_ok deps -> siblings_ok (hoist deps).
Proof. apply hoist_outer_ok. Qed.

(** C6.  When the names of the children are pairwise distinct at every node
    of the input tree, they are pairwise distinct at every node of the tree
    that [optimizePackageTree] returns. *)
Theorem optimizePackageTree_names_distinct (t : Pkg) :
  names_distinct t -> names_distinct (optimizePackageTree t).
Proof.
  induction t as [n r ds IH] using Pkg_ind'. intros Ht.
  apply names_distinct_node in Ht as [Hnd Hall].
  cbn [optimizePackageTree]. apply (proj2 (names_distinct_node _ _ _)).
  apply hoist_ok. split.
  - rewrite List.map_map.
    erewrite List.map_ext; [exact Hnd|]. intros d. apply name_optimizePackageTree.
  - apply Forall_forall. intros d' Hd'. apply list_elem_of_In, in_map_iff in Hd'.
    destruct Hd' as (d & <- & Hd).
    rewrite Forall_forall in IH, Hall.
    apply IH; [|apply Hall]; now apply list_elem_of_In.
Qed.

Lemma optimizePackageTree_names_distinct_witness :
  names_distinct ex_shared /\ names_distinct (optimizePackageTree ex_shared).
Proof.
  assert (Hin : names_distinct ex_shared).
  { simpl. repeat split; apply (bool_decide_unpack _); vm_compute; exact I. }
  split; [exact Hin | exact (optimizePackageTree_names_distinct ex_shared Hin)].
Defined.

(** Scenario 3 of the specification: a dependency shared by two siblings
    ends up once, at the root. *)
Example optimizePackageTree_hoists_shared :
  optimizePackageTree ex_shared =
  mkPkg "root" "" [mkPkg "a" "1.0.0" []; mkPkg "b" "1.0.0" []; ex_c].
Proof. reflexivity. Qed.

(** Scenario 4: of two versions of one name, the first met is hoisted and
    the other stays nested. *)
Example optimizePackageTree_conflict_stays :
  optimizePackageTree ex_conflict =
  mkPkg "root" ""
    [mkPkg "a" "1.0.0" []; mkPkg "b" "1.0.0" [mkPkg "c" "2.0.0" []]; ex_c].
Proof. reflexivity. Qed.

(** When a grandchild is hoisted or subsumed and the name lookup finds it
    at position [i], the child's array is cut down to its first [i]
    entries. *)
Lemma hoist_step_cuts_at_index (sub : Pkg) (deps hdeps : list Pkg) (i : nat) :
  hoisted_or_subsumed (find_by_name (name sub) deps) sub = true ->
  findIndex_by_name (name sub) hdeps = Some i ->
  snd (hoist_step sub (deps, hdeps)) = take i hdeps.
Proof. intros Hh Hi. unfold hoist_step. cbn [snd]. now rewrite Hh, Hi. Qed.

(** When the lookup finds nothing (the entry went with an earlier cut),
    the last entry of what is left is removed instead. *)
Lemma hoist_step_cuts_last (sub : Pkg) (deps hdeps : list Pkg) :
  hoisted_or_subsumed (find_by_name (name sub) deps) sub = true ->
  findIndex_by_name (name sub) hdeps = None ->
  snd (hoist_step sub (deps, hdeps)) = take (length hdeps - 1) hdeps.
Proof. intros Hh Hi. unfold hoist_step. cbn [snd]. now rewrite Hh, Hi. Qed.

(** Hoisting [a] out of [p] cuts [b] off as well; [b] is then hoisted, is
    not found under [p] any more, and the cut at [-1] removes [x@1], which
    was to stay in place: [x@1.0.0] is gone from the tree. *)
Example optimizePackageTree_cut_from_the_end :
  optimizePackageTree ex_last =
  mkPkg "root" ""
    [mkPkg "p" "1.0.0" []; mkPkg "x" "2.0.0" []; mkPkg "a" "1.0.0" [];
     mkPkg "b" "1.0.0" []].
Proof. reflexivity. Qed.

(** C2 (the code departs from the claim).  In the tree
    [root -> a -> (c@1, d@1)], [root -> d@2], hoisting [c] out of [a] cuts
    [a]'s array at the position of [c]: the entry [d@1] behind it goes as
    well, where deleting exactly the entry named [c] leaves [d@1] in
    place.  In the optimized tree [d@1.0.0] is gone: it is neither under
    [a] nor at the root. *)
Theorem optimizePackageTree_splice_drops_followers :
  hoist_step ex_c ([ex_a; ex_d2], [ex_c; ex_d1]) = ([ex_a; ex_d2; ex_c], []) /\
  remove_at (findIndex_by_name (name ex_c) [ex_c; ex_d1]) [ex_c; ex_d1] = [ex_d1] /\
  optimizePackageTree ex_tree = mkPkg "root" "" [mkPkg "a" "1.0.0" []; ex_d2; ex_c].
Proof. repeat split; reflexivity. Qed.

(** ** ArchiveReader, Fetcher, Resolver *)

Section HostProperties.
Context `{Host}.

Lemma first_match_none (fileName : string) (virtualPath : nat)
    (entries : list (string * Buffer)) :
  Forall (fun entry => getFileName (fst entry) virtualPath <> Some fileName) entries ->
  first_match fileName virtualPath entries = None.
Proof.
  induction 1 as [|[n data] rest Hn _ IH]; simpl; [reflexivity|].
  now rewrite bool_decide_eq_false_2.
Qed.

(** With the stripping that [getFileName] does: when the archive decodes
    to its end and [getFileName] gives no entry the name [fileName],
    [readFileFromArchive] rejects with [Couldn't find "<fileName>" inside
    the archive], a message that neither the fetch error nor the
    unsatisfied-range error carries. *)
Lemma readFileFromArchive_not_found (fileName : string) (buffer : Buffer)
    (virtualPath : nat) (entries : list (string * Buffer)) (st : State) :
  untar buffer = (entries, None) ->
  Forall (fun entry => getFileName (fst entry) virtualPath <> Some fileName) entries ->
  readFileFromArchive fileName buffer virtualPath st =
    (Throw (Error ("Couldn't find " ++ quote ++ fileName ++ quote
                   ++ " inside the archive")), st) /\
  (forall reference, not_found_message fileName <> fetch_error_message reference) /\
  (forall reference name,
     not_found_message fileName <> unsatisfied_message reference name).
Proof.
  intros Huntar Hnone. split; [|split].
  - unfold readFileFromArchive. rewrite Huntar.
    now rewrite (first_match_none _ _ _ Hnone).
  - intros reference. unfold not_found_message, fetch_error_message. simpl. discriminate.
  - intros reference name. unfold not_found_message, unsatisfied_message, quote.
    simpl. discriminate.
Qed.

(** C5.  A descriptor is already satisfied ([isVolatileDependency] is
    false) exactly when [available] maps its name to its reference, or its
    reference is a valid range that the mapped reference satisfies; with
    no entry for the name it is not satisfied, [semver.satisfies] of an
    absent version being false. *)
Theorem isVolatileDependency_satisfied (d : Pkg) (available : gmap string string) :
  (negb (isVolatileDependency d available) = true <->
   available !! name d = Some (reference d) \/
   (Js.truthy_opt (semver_validRange (reference d)) = true /\
    semver_satisfies (available !! name d) (reference d) = true)) /\
  ((forall range, semver_satisfies None range = false) ->
   available !! name d = None -> isVolatileDependency d available = true).
Proof.
  unfold isVolatileDependency. split.
  - case_bool_decide as Heq; simpl.
    + split; [intros _; now left | reflexivity].
    + destruct (Js.truthy_opt _ && semver_satisfies _ _) eqn:Hsat; simpl.
      * apply andb_true_iff in Hsat. split; [intros _; now right | reflexivity].
      * split; [discriminate|].
        intros [Hav|[Hr Hs]]; [contradiction|].
        rewrite Hr, Hs in Hsat. discriminate.
  - intros Hundef Hnone. rewrite Hnone, Hundef, andb_false_r.
    now rewrite bool_decide_eq_false_2.
Qed.

(** C9.  For a reference that is an exact version, or that is no valid
    range at all (a URL, a path), [getPinnedReference] returns the pair
    [(name, reference)] as it came and leaves the state as it was: no
    request is made. *)
Theorem getPinnedReference_passthrough (d : Pkg) (st : State) :
  Js.truthy_opt (semver_valid (reference d)) = true \/
  Js.truthy_opt (semver_validRange (reference d)) = false ->
  getPinnedReference d st = (Ok (descriptor (name d) (reference d)), st).
Proof.
  intros Hshape. unfold getPinnedReference, needs_pinning.
  destruct Hshape as [-> | ->]; [rewrite andb_false_r|]; reflexivity.
Qed.

Lemma is_path_registry_tarball (name reference : string) :
  is_path (registry_tarball name reference) = false.
Proof. reflexivity. Qed.

Lemma fetchPackage_url (fuel : nat) (name reference : string) (st : State) :
  is_path reference = false ->
  Js.truthy_opt (semver_valid reference) = false ->
  fetchPackage (S fuel) name reference st = http_fetch reference st.
Proof.
  intros Hpath Hvalid. cbn [fetchPackage]. rewrite Hpath, Hvalid.
  unfold bind, fetch, http_fetch, requested.
  destruct (http_get reference) as [detail|[[|] body]]; reflexivity.
Qed.

(** C7.  [fetchPackage] on a path reads the file and returns its bytes as
    they are; on an exact version it calls itself with the registry URL
    [https://registry.yarnpkg.com/<name>/-/<name>-<reference>.tgz]; on any
    other reference it issues the GET, and a response that is not [ok]
    throws [Couldn't fetch package "<reference>"].  The call for a version
    settles as the GET of the registry URL does, that URL not being a
    version itself. *)
Theorem fetchPackage_dispatch (fuel : nat) (name reference : string) (st : State) :
  (is_path reference = true ->
   fetchPackage (S fuel) name reference st =
     match fs_readFile reference (fs st) with
     | inr data => (Ok data, st)
     | inl detail => (Throw (HostError FileSystem detail), st)
     end) /\
  (is_path reference = false ->
   Js.truthy_opt (semver_valid reference) = true ->
   fetchPackage (S fuel) name reference st =
     fetchPackage fuel name
       ("https://registry.yarnpkg.com/" ++ name ++ "/-/" ++ name ++ "-"
        ++ reference ++ ".tgz") st) /\
  (is_path reference = false ->
   Js.truthy_opt (semver_valid reference) = false ->
   fetchPackage (S fuel) name reference st = http_fetch reference st) /\
  (is_path reference = false ->
   Js.truthy_opt (semver_valid reference) = true ->
   Js.truthy_opt (semver_valid (registry_tarball name reference)) = false ->
   fetchPackage (S (S fuel)) name reference st =
     http_fetch (registry_tarball name reference) st).
Proof.
  split; [|split; [|split]].
  - intros Hpath. cbn [fetchPackage]. rewrite Hpath. unfold host_call.
    destruct (fs_readFile reference (fs st)); reflexivity.
  - intros Hpath Hvalid. cbn [fetchPackage]. now rewrite Hpath, Hvalid.
  - apply fetchPackage_url.
  - intros Hpath Hvalid Hurl.
    change (fetchPackage (S (S fuel)) name reference st) with
      ((if is_path reference then
          fun st => host_call FileSystem (fs_readFile reference (fs st)) st
        else if Js.truthy_opt (semver_valid reference) then
          fetchPackage (S fuel) name (registry_tarball name reference)
        else
          let! response := fetch reference in
          if negb (fst response) then throw (Error (fetch_error_message reference))
          else ret (snd response)) st).
    rewrite Hpath, Hvalid.
    apply fetchPackage_url; [apply is_path_registry_tarball | exact Hurl].
Qed.

End HostProperties.


(** ** The resolution call inside the linker *)

Section Redundancy.
Context `{Host}.

Lemma same_disk_refl (st : State) : same_disk st st.
Proof. now repeat split. Qed.

Lemma same_disk_sym (st st' : State) : same_disk st st' -> same_disk st' st.
Proof. intros (? & ? & ?). now repeat split. Qed.

Lemma same_disk_trans (s1 s2 s3 : State) :
  same_disk s1 s2 -> same_disk s2 s3 -> same_disk s1 s3.
Proof. intros (? & ? & ?) (? & ? & ?). repeat split; congruence. Qed.

Ltac prim :=
  let Hfs := fresh "Hfs" in
  let Hreq := fresh "Hreq" in
  let Hout := fresh "Hout" in
  intros ? ? (Hfs & Hreq & Hout); cbn; rewrite ?Hfs, ?Hreq, ?Hout;
  repeat (match goal with
          | |- context [match ?x with _ => _ end] => destruct x
          end; cbn);
  repeat split; cbn; congruence.

Lemma respects_ret {A} (a : A) : respects (ret a).
Proof. unfold respects, ret. prim. Qed.

Lemma respects_throw {A} (e : error) : respects (@throw _ A e).
Proof. unfold respects, throw. prim. Qed.

Lemma respects_pending {A} : respects (@pending _ A).
Proof. unfold respects, pending. prim. Qed.

Lemma respects_console_log (line : string) : respects (console_log line).
Proof. unfold respects, console_log. prim. Qed.

Lemma respects_pace_total_incr : respects pace_total_incr.
Proof. unfold respects, pace_total_incr. prim. Qed.

Lemma respects_pace_tick : respects pace_tick.
Proof. unfold respects, pace_tick. prim. Qed.

Lemma respects_fetch (url : string) : respects (fetch url).
Proof. unfold respects, fetch. prim. Qed.

Lemma respects_fs_update (o : origin) (f : FS -> string + FS) :
  respects (fs_update o f).
Proof. unfold respects, fs_update. prim. Qed.

Lemma respects_require (path : string) : respects (require path).
Proof. unfold respects, require. prim. Qed.

Lemma respects_host_call {A} (o : origin) (r : string + A) : respects (host_call o r).
Proof. destruct r; [apply respects_throw | apply respects_ret]. Qed.

Lemma respects_readFile (path : string) :
  respects (fun st => host_call FileSystem (fs_readFile path (fs st)) st).
Proof. unfold respects, host_call, ret, throw. prim. Qed.

Lemma respects_bind {A B} (m : M A) (k : A -> M B) :
  respects m -> (forall a, respects (k a)) -> respects (bind m k).
Proof.
  intros Hm Hk st st' Hsd. unfold bind.
  destruct (Hm st st' Hsd) as [Ho Hs].
  destruct (m st) as [o s1], (m st') as [o' s1']. cbn [fst snd] in *. subst o'.
  destruct o; [now apply Hk | now split | now split].
Qed.

Lemma respects_for_each {A} (f : A -> M unit) (arr : list A) :
  (forall x, respects (f x)) -> respects (for_each f arr).
Proof.
  intros Hf. induction arr as [|x arr IH]; cbn [for_each].
  - apply respects_ret.
  - apply respects_bind; [apply Hf | intros _; exact IH].
Qed.

Lemma respects_call_free {A} (id : string) (call : M A) :
  respects call -> respects (call_free id call).
Proof.
  intros Hc. unfold call_free. destruct (identifier_bound id);
    [exact Hc | apply respects_throw].
Qed.

Lemma respects_fetchPackage (fuel : nat) (name reference : string) :
  respects (fetchPackage fuel name reference).
Proof.
  revert reference. induction fuel as [|fuel IH]; intros reference; cbn [fetchPackage].
  - apply respects_pending.
  - destruct (is_path reference); [apply respects_readFile|].
    destruct (Js.truthy_opt _); [apply IH|].
    apply respects_bind; [apply respects_fetch|]. intros response.
    destruct (negb _); [apply respects_throw | apply respects_ret].
Qed.

Lemma respects_extractArchiveTo (packageBuffer : Buffer) (target : string)
    (virtualPath : nat) :
  respects (extractArchiveTo packageBuffer target virtualPath).
Proof.
  unfold extractArchiveTo. destruct (untar packageBuffer) as [entries failure].
  apply respects_bind.
  - apply respects_for_each. intros entry. apply respects_fs_update.
  - intros _. destruct failure; [apply respects_throw | apply respects_ret].
Qed.

Lemma respects_fetch_and_extract (fuel : nat) (name reference cwd : string) :
  respects (fetch_and_extract fuel name reference cwd).
Proof.
  unfold fetch_and_extract. destruct (Js.truthy reference); [|apply respects_ret].
  apply respects_bind; [apply respects_fetchPackage|].
  intros packageBuffer. apply respects_extractArchiveTo.
Qed.

Lemma respects_link_bins (cwd target : string) (bin : list (string * string)) :
  respects (link_bins cwd target bin).
Proof.
  unfold link_bins. apply respects_for_each. intros entry.
  apply respects_bind; [apply respects_console_log|]. intros _.
  apply respects_bind; [apply respects_fs_update|]. intros _.
  apply respects_bind; [apply respects_call_free, respects_ret|]. intros link.
  apply respects_fs_update.
Qed.

Lemma respects_run_scripts (target : string) (scripts : list (string * string)) :
  respects (run_scripts target scripts).
Proof.
  unfold run_scripts. apply respects_for_each. intros scriptName.
  destruct (Js.prop scriptName scripts) as [script|]; [|apply respects_ret].
  destruct (Js.truthy script); [apply respects_fs_update | apply respects_ret].
Qed.

Lemma respects_sim {A} (m : M A) : respects m -> sim m m.
Proof.
  intros Hm st st' Hsd a Ha. destruct (Hm st st' Hsd) as [Ho Hs].
  split; [congruence | exact Hs].
Qed.

Lemma sim_bind {A B} (m m' : M A) (k k' : A -> M B) :
  sim m m' -> (forall a, sim (k a) (k' a)) -> sim (bind m k) (bind m' k').
Proof.
  intros Hm Hk st st' Hsd b. unfold bind.
  specialize (Hm st st' Hsd).
  destruct (m st) as [[a|e|] s1]; cbn [fst snd] in *; try discriminate.
  destruct (Hm a eq_refl) as [Ho Hs].
  destruct (m' st') as [o' s1']. cbn [fst snd] in *. subst o'.
  now apply Hk.
Qed.

(** A step that never writes to the disk can be left out. *)
Lemma sim_skip {A B} (m : M A) (k k' : M B) :
  disk_neutral m -> sim k k' -> sim (bind m (fun _ => k)) k'.
Proof.
  intros Hm Hk st st' Hsd b. unfold bind.
  specialize (Hm st).
  destruct (m st) as [[a|e|] s1]; cbn [fst snd] in *; try discriminate.
  apply Hk. eapply same_disk_trans; [apply same_disk_sym; exact Hm | exact Hsd].
Qed.

Lemma sim_promise_all {A B} (f g : A -> M B) (arr : list A) :
  Forall (fun x => sim (f x) (g x)) arr ->
  sim (promise_all f arr) (promise_all g arr).
Proof.
  induction 1 as [|x arr Hx _ IH]; cbn [promise_all].
  - apply respects_sim, respects_ret.
  - intros st st' Hsd bs.
    specialize (Hx st st' Hsd).
    destruct (f x st) as [o s1], (g x st') as [o' s1']. cbn [fst snd] in Hx.
    destruct (promise_all f arr s1) as [os s2] eqn:Hf. cbn [fst snd].
    intros Hjoin.
    destruct o as [b|e|]; [|discriminate|destruct os; discriminate].
    destruct (Hx b eq_refl) as [-> Hs1].
    destruct os as [bs'|e|]; [|discriminate|discriminate].
    specialize (IH s1 s1' Hs1 bs'). rewrite Hf in IH. cbn [fst snd] in IH.
    destruct (IH eq_refl) as [Hg Hs2].
    destruct (promise_all g arr s1') as [os' s2']. cbn [fst snd] in *. subst os'.
    split; [exact Hjoin | exact Hs2].
Qed.

(** *** The resolver never writes to the disk *)

Lemma neutral_ret {A} (a : A) : disk_neutral (ret a).
Proof. intros st. apply same_disk_refl. Qed.

Lemma neutral_throw {A} (e : error) : disk_neutral (@throw _ A e).
Proof. intros st. apply same_disk_refl. Qed.

Lemma neutral_pending {A} : disk_neutral (@pending _ A).
Proof. intros st. apply same_disk_refl. Qed.

Lemma neutral_bind {A B} (m : M A) (k : A -> M B) :
  disk_neutral m -> (forall a, disk_neutral (k a)) -> disk_neutral (bind m k).
Proof.
  intros Hm Hk st. unfold bind. specialize (Hm st).
  destruct (m st) as [[a|e|] s1]; cbn [fst snd] in *; try exact Hm.
  eapply same_disk_trans; [exact Hm | apply Hk].
Qed.

Lemma neutral_promise_all {A B} (f : A -> M B) (arr : list A) :
  (forall x, disk_neutral (f x)) -> disk_neutral (promise_all f arr).
Proof.
  intros Hf. induction arr as [|x arr IH]; cbn [promise_all]; [apply neutral_ret|].
  intros st. specialize (Hf x st).
  destruct (f x st) as [o s1]. specialize (IH s1).
  destruct (promise_all f arr s1) as [os s2]. cbn [fst snd] in *.
  eapply same_disk_trans; eassumption.
Qed.

Lemma neutral_host_call {A} (o : origin) (r : string + A) : disk_neutral (host_call o r).
Proof. destruct r; [apply neutral_throw | apply neutral_ret]. Qed.

Lemma neutral_fetch (url : string) : disk_neutral (fetch url).
Proof. intros st. unfold fetch. destruct (http_get url); now repeat split. Qed.

Lemma neutral_pace_total_incr : disk_neutral pace_total_incr.
Proof. intros st. now repeat split. Qed.

Lemma neutral_pace_tick : disk_neutral pace_tick.
Proof. intros st. now repeat split. Qed.

Lemma neutral_fetchPackage (fuel : nat) (name reference : string) :
  disk_neutral (fetchPackage fuel name reference).
Proof.
  revert reference. induction fuel as [|fuel IH]; intros reference; cbn [fetchPackage].
  - apply neutral_pending.
  - destruct (is_path reference).
    + intros st. apply neutral_host_call.
    + destruct (Js.truthy_opt _); [apply IH|].
      apply neutral_bind; [apply neutral_fetch|]. intros response.
      destruct (negb _); [apply neutral_throw | apply neutral_ret].
Qed.

Lemma neutral_readFileFromArchive (fileName : string) (buffer : Buffer)
    (virtualPath : nat) :
  disk_neutral (readFileFromArchive fileName buffer virtualPath).
Proof.
  unfold readFileFromArchive. destruct (untar buffer) as [entries failure].
  destruct (first_match _ _ _); [apply neutral_ret|].
  destruct failure; apply neutral_throw.
Qed.

Lemma neutral_getPinnedReference (d : Pkg) : disk_neutral (getPinnedReference d).
Proof.
  unfold getPinnedReference. destruct (needs_pinning _); [|apply neutral_ret].
  apply neutral_bind; [apply neutral_fetch|]. intros response.
  apply neutral_bind; [apply neutral_host_call|]. intros versions.
  destruct (semver_maxSatisfying _ _); [apply neutral_ret | apply neutral_throw].
Qed.

Lemma neutral_getPackageDependencies (fuel : nat) (d : Pkg) :
  disk_neutral (getPackageDependencies fuel d).
Proof.
  unfold getPackageDependencies.
  apply neutral_bind; [apply neutral_fetchPackage|]. intros packageBuffer.
  apply neutral_bind; [apply neutral_readFileFromArchive|]. intros data.
  apply neutral_bind; [apply neutral_host_call|]. intros packageJson.
  apply neutral_ret.
Qed.

(** [getPackageDependencyTree] leaves the file system, the loader's cache
    and the printed lines as they were: its effects are requests and
    updates of the progress bar. *)
Lemma neutral_getPackageDependencyTree (fuel : nat) (node : Pkg)
    (available : gmap string string) :
  disk_neutral (getPackageDependencyTree fuel node available).
Proof.
  revert node available.
  induction fuel as [|fuel IH]; intros node available; cbn [getPackageDependencyTree].
  - apply neutral_pending.
  - apply neutral_bind; [|intros resolved; apply neutral_ret].
    apply neutral_promise_all. intros d.
    apply neutral_bind; [apply neutral_pace_total_incr|]. intros _.
    apply neutral_bind; [apply neutral_getPinnedReference|]. intros pinned.
    apply neutral_bind; [apply neutral_getPackageDependencies|]. intros subs.
    apply neutral_bind; [apply neutral_pace_tick|]. intros _.
    apply IH.
Qed.

(** *** The linker with and without the call *)

Lemma linkPackages_node (fuel : nat) (n r : string) (ds : list Pkg) (cwd : string) :
  linkPackages fuel (mkPkg n r ds) cwd =
    (let! _ := pace_total_incr in
     let! _ := getPackageDependencyTree fuel (mkPkg n r ds) ∅ in
     let! _ := fetch_and_extract fuel n r cwd in
     let! _ := promise_all (link_dependency (linkPackages fuel) cwd) ds in
     pace_tick).
Proof. reflexivity. Qed.

Lemma linkPackages_without_resolution_node (fuel : nat) (n r : string)
    (ds : list Pkg) (cwd : string) :
  linkPackages_without_resolution fuel (mkPkg n r ds) cwd =
    (let! _ := pace_total_incr in
     let! _ := fetch_and_extract fuel n r cwd in
     let! _ := promise_all
                 (link_dependency (linkPackages_without_resolution fuel) cwd) ds in
     pace_tick).
Proof. reflexivity. Qed.

Lemma sim_link_dependency (recur recur' : Pkg -> string -> M unit) (cwd : string)
    (d : Pkg) :
  (forall target, sim (recur d target) (recur' d target)) ->
  sim (link_dependency recur cwd d) (link_dependency recur' cwd d).
Proof.
  intros Hrec. unfold link_dependency.
  apply sim_bind; [apply Hrec|]. intros _.
  apply respects_sim.
  apply respects_bind; [apply respects_require|]. intros json.
  apply respects_bind; [apply respects_link_bins|]. intros _.
  destruct (pj_scripts json); [apply respects_run_scripts | apply respects_ret].
Qed.

Lemma sim_linkPackages (fuel : nat) (t : Pkg) :
  forall cwd,
    sim (linkPackages fuel t cwd) (linkPackages_without_resolution fuel t cwd).
Proof.
  induction t as [n r ds IH] using Pkg_ind'. intros cwd.
  rewrite linkPackages_node, linkPackages_without_resolution_node.
  apply sim_bind; [apply respects_sim, respects_pace_total_incr|]. intros _.
  apply sim_skip; [apply neutral_getPackageDependencyTree|].
  apply sim_bind; [apply respects_sim, respects_fetch_and_extract|]. intros _.
  apply sim_bind; [|intros _; apply respects_sim, respects_pace_tick].
  apply sim_promise_all.
  eapply Forall_impl; [exact IH|]. intros d Hd. cbn beta.
  now apply sim_link_dependency.
Qed.

(** C10 (as amended).  Whenever [linkPackages] runs to its end without an
    error, so that every call of [getPackageDependencyTree] it makes has
    returned, the variant without that call also runs to its end from the
    same state and leaves the same on-disk layout: the same file system,
    the same loader cache, the same printed lines. *)
Theorem linkPackages_resolution_redundant_when_ok (fuel : nat) (t : Pkg)
    (cwd : string) (st : State) :
  fst (linkPackages fuel t cwd st) = Ok tt ->
  fst (linkPackages_without_resolution fuel t cwd st) = Ok tt /\
  fs (snd (linkPackages_without_resolution fuel t cwd st))
    = fs (snd (linkPackages fuel t cwd st)) /\
  required (snd (linkPackages_without_resolution fuel t cwd st))
    = required (snd (linkPackages fuel t cwd st)) /\
  stdout (snd (linkPackages_without_resolution fuel t cwd st))
    = stdout (snd (linkPackages fuel t cwd st)).
Proof.
  intros Hok.
  destruct (sim_linkPackages fuel t cwd st st (same_disk_refl st) tt Hok)
    as [Hok' (Hfs & Hreq & Hout)].
  now repeat split.
Qed.

End Redundancy.

(** ** Errors reach the entry point *)

Section Propagation.
Context `{Host}.

Lemma bind_ok_eq {A B} (m : M A) (k : A -> M B) (st : State) (a : A) (s' : State) :
  m st = (Ok a, s') -> bind m k st = k a s'.
Proof. intros Hm. unfold bind. now rewrite Hm. Qed.

Lemma bind_throw_eq {A B} (m : M A) (k : A -> M B) (st : State) (e : error) :
  fst (m st) = Throw e -> fst (bind m k st) = Throw e.
Proof.
  unfold bind. destruct (m st) as [o s1]. cbn [fst]. now intros ->.
Qed.

Lemma promise_all_cons {A B} (f : A -> M B) (x : A) (arr : list A) (st : State) :
  promise_all f (x :: arr) st =
    (join_outcome (fst (f x st)) (fst (promise_all f arr (snd (f x st)))),
     snd (promise_all f arr (snd (f x st)))).
Proof.
  cbn [promise_all]. destruct (f x st) as [o s1]. cbn [fst snd].
  now destruct (promise_all f arr s1).
Qed.

Lemma join_outcome_not_thrown {B} (o : outcome B) (os : outcome (list B)) :
  (forall e, join_outcome o os <> Throw e) ->
  (forall e, o <> Throw e) /\ (forall e, os <> Throw e).
Proof.
  intros Hj. split; intros e ->.
  - now apply (Hj e).
  - destruct o as [b|e0|]; [apply (Hj e)|apply (Hj e0)|apply (Hj e)]; reflexivity.
Qed.

(** [Promise.all] rejects once the task of [c] rejects; when no other task
    of the array rejects, it rejects with that task's error. *)
Lemma promise_all_calls {A B} (sole : bool) (f : A -> M B) (before : list A)
    (c : A) (after : list A) (st : State) (e : error) :
  fst (f c (snd (promise_all f before st))) = Throw e ->
  (sole = true -> alone f before c after st) ->
  exists e', fst (promise_all f (before ++ c :: after) st) = Throw e' /\
             (sole = true -> e' = e).
Proof.
  revert st. induction before as [|x bs IH]; intros st Hc Halone.
  - cbn [app]. rewrite promise_all_cons. cbn [fst snd promise_all ret] in *.
    rewrite Hc. exists e. now split.
  - rewrite <- app_comm_cons. rewrite promise_all_cons in *. cbn [fst snd] in *.
    assert (Hbs : sole = true ->
                  alone f bs c after (snd (f x st)) /\
                  forall e1, fst (f x st) <> Throw e1).
    { intros Hsole. destruct (Halone Hsole) as [Hb Ha]. unfold alone in *.
      rewrite promise_all_cons in Hb, Ha. cbn [fst snd] in Hb, Ha.
      apply join_outcome_not_thrown in Hb as [Hx Hb]. now repeat split. }
    destruct (IH (snd (f x st)) Hc (fun Hs => proj1 (Hbs Hs))) as (e' & He' & Hsole).
    rewrite He'. destruct (fst (f x st)) as [b|e1|] eqn:Hx; cbn.
    + now exists e'.
    + exists e1. split; [reflexivity|]. intros Hs.
      now destruct (proj2 (Hbs Hs) e1).
    + now exists e'.
Qed.

Lemma getPinnedReference_unsatisfied (d : Pkg) (response : bool * Buffer)
    (versions : list string) (st : State) :
  needs_pinning (reference d) = true ->
  http_get ("https://registry.yarnpkg.com/" ++ name d) = inr response ->
  response_versions (snd response) = inr versions ->
  semver_maxSatisfying versions (reference d) = None ->
  getPinnedReference d st =
    (Throw (Error (unsatisfied_message (reference d) (name d))),
     requested ("https://registry.yarnpkg.com/" ++ name d) st).
Proof.
  intros Hpin Hget Hvers Hmax. unfold getPinnedReference. rewrite Hpin.
  unfold bind, fetch. rewrite Hget, Hvers. cbn [host_call ret].
  now rewrite Hmax.
Qed.

Lemma isVolatileDependency_empty (d : Pkg) :
  semver_satisfies None (reference d) = false ->
  isVolatileDependency d ∅ = true.
Proof.
  intros Hsat. unfold isVolatileDependency. rewrite lookup_empty, Hsat, andb_false_r.
  now rewrite bool_decide_eq_false_2.
Qed.

Lemma getPackageDependencyTree_step (fuel : nat) (node : Pkg)
    (available : gmap string string) :
  getPackageDependencyTree (S fuel) node available =
    (let! resolved :=
       promise_all (resolve_task (getPackageDependencyTree fuel) (S fuel) available)
         (volatile available node) in
     ret (mkPkg (name node) (reference node) resolved)).
Proof. reflexivity. Qed.

(** A volatile dependency of the node itself is called, whatever the
    other dependencies are. *)
Lemma resolution_calls_direct (fuel : nat) (node : Pkg)
    (available : gmap string string) (st : State) (d : Pkg) :
  In d (dependencies node) ->
  isVolatileDependency d available = true ->
  resolution_calls false (S fuel) node available st d.
Proof.
  intros Hin Hvol.
  assert (Hd : In d (volatile available node)) by (apply filter_In; now split).
  apply in_split in Hd as (before & after & Hsplit).
  apply (calls_here false fuel node available st before after d Hsplit).
  discriminate.
Qed.

(** An error thrown by a call of [getPinnedReference] in a resolution
    comes out of [getPackageDependencyTree]; it is the error that comes
    out when no other task on the way rejects. *)
Lemma resolution_calls_throws (sole : bool) (fuel : nat) (node : Pkg)
    (available : gmap string string) (st : State) (d : Pkg) (e_d : error) :
  resolution_calls sole fuel node available st d ->
  (forall s, fst (getPinnedReference d s) = Throw e_d) ->
  exists e, fst (getPackageDependencyTree fuel node available st) = Throw e /\
            (sole = true -> e = e_d).
Proof.
  intros Hcalls Hpin.
  induction Hcalls as
    [fuel node available st before after d Hsplit Halone
    |fuel node available st before after c p subs s2 s3 d Hsplit Hp Hsubs _ IH Halone];
    rewrite getPackageDependencyTree_step, Hsplit.
  - destruct (promise_all_calls sole
                (resolve_task (getPackageDependencyTree fuel) (S fuel) available)
                before d after st e_d) as (e & He & Hsole); [|exact Halone|].
    + unfold resolve_task. rewrite (bind_ok_eq pace_total_incr _ _ tt _ eq_refl).
      apply bind_throw_eq, Hpin.
    + exists e. split; [now apply bind_throw_eq | exact Hsole].
  - destruct (IH Hpin) as (e0 & He0 & Hsole0).
    destruct (promise_all_calls sole
                (resolve_task (getPackageDependencyTree fuel) (S fuel) available)
                before c after st e0) as (e & He & Hsole); [|exact Halone|].
    + unfold resolve_task. rewrite (bind_ok_eq pace_total_incr _ _ tt _ eq_refl).
      rewrite (bind_ok_eq _ _ _ _ _ Hp), (bind_ok_eq _ _ _ _ _ Hsubs).
      rewrite (bind_ok_eq pace_tick _ _ tt _ eq_refl). exact He0.
    + exists e. split; [now apply bind_throw_eq|].
      intros Hs. rewrite (Hsole Hs). now apply Hsole0.
Qed.

(** The same for the calls made while linking. *)
Lemma link_calls_throws (sole : bool) (fuel : nat) (t : Pkg) (cwd : string)
    (st : State) (d : Pkg) (e_d : error) :
  link_calls sole fuel t cwd st d ->
  (forall s, fst (getPinnedReference d s) = Throw e_d) ->
  exists e, fst (linkPackages fuel t cwd st) = Throw e /\ (sole = true -> e = e_d).
Proof.
  intros Hcalls Hpin.
  induction Hcalls as
    [n r ds cwd st d Hres
    |n r ds cwd st t s1 s2 before after c d Hresolved Hextract Hsplit _ IH Halone];
    rewrite linkPackages_node;
    rewrite (bind_ok_eq pace_total_incr _ _ tt _ eq_refl).
  - destruct (resolution_calls_throws _ _ _ _ _ _ e_d Hres Hpin) as (e & He & Hsole).
    exists e. split; [now apply bind_throw_eq | exact Hsole].
  - rewrite (bind_ok_eq _ _ _ _ _ Hresolved), (bind_ok_eq _ _ _ _ _ Hextract).
    destruct (IH Hpin) as (e0 & He0 & Hsole0).
    destruct (promise_all_calls sole (link_dependency (linkPackages fuel) cwd)
                before c after s2 e0) as (e & He & Hsole); [|exact Halone|].
    + unfold link_dependency at 1. now apply bind_throw_eq.
    + exists e. split; [apply bind_throw_eq; now rewrite <- Hsplit in He|].
      intros Hs. rewrite (Hsole Hs). now apply Hsole0.
Qed.

Lemma trackProgress_throw {A} (cb : M A) (st : State) (e : error) :
  fst (cb (with_new_bar st)) = Throw e -> fst (trackProgress cb st) = Throw e.
Proof.
  unfold trackProgress, with_new_bar. destruct (cb _) as [o s1]. cbn [fst].
  now intros ->.
Qed.

Lemma trackProgress_ok {A} (cb : M A) (st : State) (a : A) (s1 : State) :
  cb (with_new_bar st) = (Ok a, s1) ->
  trackProgress cb st =
    (Ok a, mkState (fs s1) (required s1) (finalize (pace s1)) (requests s1) (stdout s1)).
Proof. unfold trackProgress, with_new_bar. now intros ->. Qed.

(** An error thrown by a call of [getPinnedReference] anywhere in the
    installation comes out of the [try] block. *)
Lemma main_calls_throws (sole : bool) (fuel : nat) (packageJson : Pkg)
    (destPath : string) (st : State) (d : Pkg) (e_d : error) :
  main_calls sole fuel packageJson destPath st d ->
  (forall s, fst (getPinnedReference d s) = Throw e_d) ->
  exists e, fst (install fuel packageJson destPath st) = Throw e /\
            (sole = true -> e = e_d).
Proof.
  intros [Hres|packageTree s1 Hresolved Hlink] Hpin; unfold install;
    rewrite (bind_ok_eq (console_log _) _ _ tt _ eq_refl).
  - destruct (resolution_calls_throws _ _ _ _ _ _ e_d Hres Hpin) as (e & He & Hsole).
    exists e. split; [|exact Hsole]. now apply bind_throw_eq, trackProgress_throw.
  - rewrite (bind_ok_eq _ _ _ _ _ (trackProgress_ok _ _ _ _ Hresolved)).
    rewrite (bind_ok_eq (console_log _) _ _ tt _ eq_refl).
    destruct (link_calls_throws _ _ _ _ _ _ e_d Hlink Hpin) as (e & He & Hsole).
    exists e. split; [|exact Hsole]. apply trackProgress_throw. exact He.
Qed.

(** A dependency of the manifest itself is always called: the manifest
    is resolved with an empty [available] map. *)
Lemma main_calls_direct (fuel : nat) (packageJson : Pkg) (destPath : string)
    (st : State) (d : Pkg) :
  In d (dependencies packageJson) ->
  semver_satisfies None (reference d) = false ->
  main_calls false (S fuel) packageJson destPath st d.
Proof.
  intros Hin Hsat. apply calls_resolving. apply resolution_calls_direct; [exact Hin|].
  now apply isVolatileDependency_empty.
Qed.

(** C4.  When the installation comes to call [getPinnedReference] on a
    descriptor whose reference is a range, not an exact version, and no
    version the registry lists satisfies it (be the call made while the
    manifest is resolved or by a resolution that [linkPackages] makes)
    the call throws [Couldn't find a version matching "<range>" for
    package "<name>"] and the installation exits with code 1; when no
    other task on the way to the call rejects, the error printed is that
    one. *)
Theorem unsatisfied_range_exits_1 (sole : bool) (fuel : nat) (packageJson d : Pkg)
    (destPath : string) (response : bool * Buffer) (versions : list string)
    (st : State) :
  main_calls sole fuel packageJson destPath st d ->
  needs_pinning (reference d) = true ->
  http_get ("https://registry.yarnpkg.com/" ++ name d) = inr response ->
  response_versions (snd response) = inr versions ->
  semver_maxSatisfying versions (reference d) = None ->
  (forall s,
     fst (getPinnedReference d s) =
       Throw (Error ("Couldn't find a version matching " ++ quote ++ reference d
                     ++ quote ++ " for package " ++ quote ++ name d ++ quote))) /\
  fst (main fuel packageJson destPath st) = Some 1 /\
  (sole = true ->
   head (stdout (snd (main fuel packageJson destPath st))) =
     Some ("Error: Couldn't find a version matching " ++ quote ++ reference d
           ++ quote ++ " for package " ++ quote ++ name d ++ quote)%string).
Proof.
  intros Hcalls Hpin Hget Hvers Hmax.
  assert (Hthrow : forall s,
             fst (getPinnedReference d s) =
               Throw (Error (unsatisfied_message (reference d) (name d)))).
  { intros s. now rewrite (getPinnedReference_unsatisfied d response versions). }
  split; [exact Hthrow|].
  destruct (main_calls_throws _ _ _ _ _ _ _ Hcalls Hthrow) as (e & He & Hsole).
  unfold main. destruct (install fuel packageJson destPath st) as [o s1].
  cbn [fst] in He. subst o. split; [reflexivity|].
  intros Hs. rewrite (Hsole Hs). reflexivity.
Qed.

Lemma string_append_assoc (a b c : string) :
  ((a ++ b) ++ c = a ++ (b ++ c))%string.
Proof.
  induction a as [|x a IH]; [reflexivity|].
  change (String x ((a ++ b) ++ c) = String x (a ++ (b ++ c)))%string.
  now f_equal.
Qed.

(** C3 (the code departs from the claim).  For a dependency with at least
    one [bin] entry the loop prints the destination, makes the [.bin]
    directory and then evaluates [relative], an identifier that is bound
    nowhere: a [ReferenceError] is thrown before [fs.symlink] is called, so
    no link is created (the file system is as [mkdirp] left it). *)
Theorem link_bins_throws_before_symlink (cwd target binName binPath : string)
    (rest : list (string * string)) (st : State) :
  link_bins cwd target ((binName, binPath) :: rest) st =
    let line := ("bin: " ++ cwd ++ "/spm_node_modules/.bin/" ++ binName)%string in
    match fs_mkdirp (cwd ++ "/spm_node_modules/.bin") (fs st) with
    | inr files =>
        (Throw (ReferenceError "relative is not defined"),
         mkState files (required st) (pace st) (requests st) (line :: stdout st))
    | inl detail =>
        (Throw (HostError FileSystem detail),
         mkState (fs st) (required st) (pace st) (requests st) (line :: stdout st))
    end.
Proof.
  unfold link_bins. cbn [for_each]. unfold bind at 1. unfold bind at 1.
  cbn [console_log fst snd]. unfold bind at 1, fs_update at 1. cbn [fs].
  unfold bin_directory.
  replace ((cwd ++ "/spm_node_modules/.bin") ++ "/" ++ binName)%string
    with (cwd ++ "/spm_node_modules/.bin/" ++ binName)%string
    by (now rewrite string_append_assoc).
  destruct (fs_mkdirp _ _) as [detail|files]; reflexivity.
Qed.

End Propagation.

(** ** The model at work on concrete hosts *)

Lemma readFileFromArchive_not_found_witness :
  let H := sim_host [] in
  let buffer := Tarball [("package/index.js", Text "exports.x = 1")] in
  untar buffer = ([("package/index.js", Text "exports.x = 1")], None) /\
  readFileFromArchive "package.json" buffer 1 (initial_state ∅) =
    (Throw (Error (not_found_message "package.json")), initial_state ∅).
Proof.
  split; [reflexivity|].
  refine (proj1 (@readFileFromArchive_not_found (sim_host []) "package.json"
                   (Tarball [("package/index.js", Text "exports.x = 1")]) 1
                   [("package/index.js", Text "exports.x = 1")]
                   (initial_state ∅) eq_refl _)).
  repeat constructor. discriminate.
Defined.

(** C8 (the code departs from the claim).  The archive has the one entry
    [/package.json] and decodes to its end.  For a strip count of 1 the
    rule of the specification gives that entry no stripped name (the
    leading slash removed, there is no component left to strip), so no
    entry's stripped name is [package.json]; yet [readFileFromArchive]
    does not fail with the not-found error: [getFileName] cuts at the
    leading slash, gives the entry the name [package.json], and the
    promise is fulfilled with the entry's contents.  The defect is the one
    of C1. *)
Theorem readFileFromArchive_finds_unstripped_entry :
  let H := sim_host [] in
  let archive := Tarball [("/package.json", Manifest (manifest_with []))] in
  untar archive = ([("/package.json", Manifest (manifest_with []))], None) /\
  getFileName_spec "/package.json" 1 = None /\
  getFileName "/package.json" 1 = Some "package.json" /\
  readFileFromArchive "package.json" archive 1 (initial_state ∅) =
    (Ok (Manifest (manifest_with [])), initial_state ∅).
Proof. repeat split. Qed.

(** The effect of the kept slash: the manifest of an archive whose entry
    is named [/package/package.json] is not found. *)
Example readPackageJsonFromArchive_leading_slash :
  fst (@readPackageJsonFromArchive (sim_host []) slash_archive (initial_state ∅)) =
    Throw (Error (not_found_message "package.json")).
Proof. reflexivity. Qed.

Lemma isVolatileDependency_satisfied_witness :
  let H := sim_host [] in
  (forall range, semver_satisfies None range = false) /\
  negb (isVolatileDependency (descriptor "a" "^1.0.0") {[ "a" := "1.2.0" ]}) = true /\
  isVolatileDependency (descriptor "a" "^1.0.0") ∅ = true.
Proof.
  pose proof (@isVolatileDependency_satisfied (sim_host [])) as Hthm.
  split; [reflexivity|]. split.
  - apply (proj1 (Hthm (descriptor "a" "^1.0.0") {[ "a" := "1.2.0" ]})).
    right. split; reflexivity.
  - apply (proj2 (Hthm (descriptor "a" "^1.0.0") ∅) (fun _ => eq_refl)).
    reflexivity.
Defined.

Lemma getPinnedReference_passthrough_witness :
  let H := sim_host [] in
  Js.truthy_opt (semver_valid "1.2.3") = true /\
  Js.truthy_opt (semver_validRange "https://example.org/a.tgz") = false /\
  getPinnedReference (descriptor "a" "1.2.3") (initial_state ∅) =
    (Ok (descriptor "a" "1.2.3"), initial_state ∅) /\
  getPinnedReference (descriptor "a" "https://example.org/a.tgz") (initial_state ∅) =
    (Ok (descriptor "a" "https://example.org/a.tgz"), initial_state ∅).
Proof.
  split; [reflexivity|]. split; [reflexivity|]. split.
  - apply (@getPinnedReference_passthrough (sim_host []) (descriptor "a" "1.2.3")).
    left. reflexivity.
  - apply (@getPinnedReference_passthrough (sim_host [])
             (descriptor "a" "https://example.org/a.tgz")).
    right. reflexivity.
Defined.

Lemma fetchPackage_dispatch_witness :
  let H := sim_host registry_world in
  is_path "1.2.0" = false /\
  Js.truthy_opt (semver_valid "1.2.0") = true /\
  Js.truthy_opt (semver_valid (registry_tarball "a" "1.2.0")) = false /\
  fetchPackage 2 "a" "1.2.0" (initial_state ∅) =
    http_fetch "https://registry.yarnpkg.com/a/-/a-1.2.0.tgz" (initial_state ∅).
Proof.
  split; [reflexivity|]. split; [reflexivity|]. split; [reflexivity|].
  exact (proj2 (proj2 (proj2
           (@fetchPackage_dispatch (sim_host registry_world) 0 "a" "1.2.0"
              (initial_state ∅)))) eq_refl eq_refl eq_refl).
Defined.

Lemma pair_of_fst {A B : Type} (x : A * B) (a : A) : fst x = a -> x = (a, snd x).
Proof. destruct x as [a' b]. cbn. now intros ->. Qed.

Lemma unsatisfied_range_exits_1_witness :
  let H := sim_host registry_world in
  let d := descriptor "c" "^5.0.0" in
  main_calls true 4 registry_project "/dest" (initial_state ∅) d /\
  needs_pinning (reference d) = true /\
  semver_maxSatisfying ["1.0.0"] (reference d) = None /\
  fst (main 4 registry_project "/dest" (initial_state ∅)) = Some 1 /\
  head (stdout (snd (main 4 registry_project "/dest" (initial_state ∅)))) =
    Some ("Error: " ++ unsatisfied_message "^5.0.0" "c")%string.
Proof.
  assert (Hcalls : @main_calls (sim_host registry_world) true 4 registry_project
                     "/dest" (initial_state ∅) (descriptor "c" "^5.0.0")).
  { eapply (calls_linking true 4 registry_project "/dest" _ _ registry_resolved);
      [apply pair_of_fst; vm_compute; reflexivity|].
    change (optimizePackageTree registry_resolved) with registry_tree.
    apply (link_calls_here true 4 "" "" [mkPkg "a" "1.2.0" []; mkPkg "b" "1.0.0" []]).
    eapply (calls_below true 3 _ ∅ _ [mkPkg "a" "1.2.0" []] [] (mkPkg "b" "1.0.0" [])
              (descriptor "b" "1.0.0") [descriptor "a" "^1.0.0"]);
      [vm_compute; reflexivity
      |apply pair_of_fst; vm_compute; reflexivity
      |apply pair_of_fst; vm_compute; reflexivity
      |
      |intros _; split; intros e; vm_compute; intros Habs; discriminate Habs].
    eapply (calls_below true 2 _ _ _ [] [] (descriptor "a" "^1.0.0")
              (descriptor "a" "1.3.0") [descriptor "c" "^5.0.0"]);
      [vm_compute; reflexivity
      |apply pair_of_fst; vm_compute; reflexivity
      |apply pair_of_fst; vm_compute; reflexivity
      |
      |intros _; split; intros e; vm_compute; intros Habs; discriminate Habs].
    eapply (calls_here true 1 _ _ _ [] []);
      [vm_compute; reflexivity
      |intros _; split; intros e; vm_compute; intros Habs; discriminate Habs]. }
  split; [exact Hcalls|]. split; [reflexivity|]. split; [reflexivity|].
  destruct (@unsatisfied_range_exits_1 (sim_host registry_world) true 4
              registry_project (descriptor "c" "^5.0.0") "/dest"
              (true, Index ["1.0.0"]) ["1.0.0"] (initial_state ∅)
              Hcalls eq_refl eq_refl eq_refl eq_refl) as (_ & Hexit & Hprint).
  split; [exact Hexit | exact (Hprint eq_refl)].
Defined.

(** Scenario 2 of the specification: the range [^1.2.0] is pinned to the
    highest version it admits. *)
Example getPinnedReference_range :
  fst (@getPinnedReference
         (sim_host [("https://registry.yarnpkg.com/a",
                      (true, Index ["1.2.0"; "1.2.5"; "1.3.0"; "2.0.0"]))])
         (descriptor "a" "^1.2.0") (initial_state ∅)) =
    Ok (descriptor "a" "1.3.0").
Proof. reflexivity. Qed.

(** A dependency with a [bin] entry: the installation stops with the
    [ReferenceError], exit code 1, and there is no link in [.bin]. *)
Example linkPackages_bin_entry :
  let H := sim_host bin_world in
  fst (linkPackages 3 leaf_tree "/dest" (initial_state ∅)) =
    Throw (ReferenceError "relative is not defined") /\
  fs (snd (linkPackages 3 leaf_tree "/dest" (initial_state ∅)))
    !! "/dest/spm_node_modules/.bin/cli" = None /\
  fst (main 3 (mkPkg "" "" [descriptor "a" "1.0.0"]) "/dest" (initial_state ∅)) = Some 1.
Proof. vm_compute. repeat split; reflexivity. Qed.

Lemma linkPackages_resolution_redundant_when_ok_witness :
  let H := sim_host leaf_world in
  fst (linkPackages 3 leaf_tree "/dest" (initial_state ∅)) = Ok tt /\
  fst (linkPackages_without_resolution 3 leaf_tree "/dest" (initial_state ∅)) = Ok tt /\
  fs (snd (linkPackages_without_resolution 3 leaf_tree "/dest" (initial_state ∅)))
    = fs (snd (linkPackages 3 leaf_tree "/dest" (initial_state ∅))).
Proof.
  assert (Hok : fst (@linkPackages (sim_host leaf_world) 3 leaf_tree "/dest"
                       (initial_state ∅)) = Ok tt) by (vm_compute; reflexivity).
  split; [exact Hok|].
  destruct (@linkPackages_resolution_redundant_when_ok (sim_host leaf_world) 3
              leaf_tree "/dest" (initial_state ∅) Hok) as (Hok' & Hfs & _).
  split; [exact Hok' | exact Hfs].
Defined.

(** C10 (the claim as stated fails).  In [registry_world] the resolver
    builds [registry_resolved] for the project and the optimizer turns it
    into [registry_tree].  Linking that tree, the call of
    [getPackageDependencyTree] at the root resolves [b] with no [a] above
    it, pins [a@^1.0.0] to [1.3.0] and throws on the range of [c]:
    [linkPackages] stops with nothing on disk, while the variant without
    the call installs [a] and [b]. *)
Lemma linkPackages_resolution_can_abort :
  let H := sim_host registry_world in
  let st := initial_state ∅ in
  fst (getPackageDependencyTree 4 registry_project ∅ st) = Ok registry_resolved /\
  optimizePackageTree registry_resolved = registry_tree /\
  fst (linkPackages 4 registry_tree "/dest" st) =
    Throw (Error (unsatisfied_message "^5.0.0" "c")) /\
  fs (snd (linkPackages 4 registry_tree "/dest" st)) = ∅ /\
  fst (linkPackages_without_resolution 4 registry_tree "/dest" st) = Ok tt /\
  fs (snd (linkPackages_without_resolution 4 registry_tree "/dest" st))
    !! "/dest/spm_node_modules/a/package.json"
    = Some (Manifest (manifest_with [("b", "1.0.0")])) /\
  fs (snd (linkPackages_without_resolution 4 registry_tree "/dest" st))
    <> fs (snd (linkPackages 4 registry_tree "/dest" st)).
Proof.
  cbv zeta.
  assert (Hempty : fs (snd (@linkPackages (sim_host registry_world) 4 registry_tree
                              "/dest" (initial_state ∅))) = ∅)
    by (vm_compute; reflexivity).
  assert (Hfile : fs (snd (@linkPackages_without_resolution (sim_host registry_world) 4
                             registry_tree "/dest" (initial_state ∅)))
                    !! "/dest/spm_node_modules/a/package.json"
                  = Some (Manifest (manifest_with [("b", "1.0.0")])))
    by (vm_compute; reflexivity).
  assert (Hnone : fs (snd (@linkPackages (sim_host registry_world) 4 registry_tree
                             "/dest" (initial_state ∅)))
                    !! "/dest/spm_node_modules/a/package.json" = None)
    by (vm_compute; reflexivity).
  repeat split; try (vm_compute; reflexivity); try assumption.
  intros Heq. rewrite Heq, Hnone in Hfile. discriminate Hfile.
Qed.

(** * Further properties *)

(** ** Entry names *)

Lemma indexOf_slash_none (s : string) :
  Js.indexOf "/" s = None <-> count_slashes s = 0.
Proof.
  induction s as [|a s IH]; simpl; [tauto|].
  destruct (Ascii.eqb a "/"); [split; discriminate|].
  destruct (Js.indexOf "/" s); simpl.
  - split; [discriminate|]. intros Hc. apply IH in Hc. discriminate.
  - split; [intros _; now apply IH | reflexivity].
Qed.

Lemma indexOf_slash_some (s : string) (i : nat) :
  Js.indexOf "/" s = Some i ->
  exists before, s = (before ++ String "/" (Js.substr (i + 1) s))%string /\
                 count_slashes before = 0.
Proof.
  revert i. induction s as [|a s IH]; intros i; simpl; [discriminate|].
  destruct (Ascii.eqb_spec a "/") as [->|Hne].
  - intros [= <-]. exists EmptyString. split; reflexivity.
  - destruct (Js.indexOf "/" s) as [j|]; [|discriminate].
    intros [= <-]. destruct (IH j eq_refl) as (before & Hs & Hc).
    exists (String a before). split.
    + change (String a s = String a (before ++ String "/" (Js.substr (j + 1) s)))%string.
      now f_equal.
    + simpl. destruct (Ascii.eqb_spec a "/"); [contradiction|exact Hc].
Qed.

Lemma count_slashes_app (s t : string) :
  count_slashes (s ++ t)%string = count_slashes s + count_slashes t.
Proof.
  induction s as [|a s IH]; [reflexivity|].
  change (count_slashes (String a (s ++ t)%string)
          = count_slashes (String a s) + count_slashes t).
  simpl. rewrite IH. lia.
Qed.

Lemma getFileName_loop_cut (n : nat) (s r : string) :
  getFileName_loop n s = Some r ->
  exists cut, s = (cut ++ r)%string /\ count_slashes cut = n.
Proof.
  revert s. induction n as [|n IH]; intros s; simpl.
  - intros [= <-]. now exists EmptyString.
  - destruct (Js.indexOf "/" s) as [i|] eqn:Hi; [|discriminate].
    intros Hr. destruct (IH _ Hr) as (cut & Hcut & Hn).
    destruct (indexOf_slash_some s i Hi) as (before & Hs & Hb).
    exists (before ++ String "/" cut)%string. split.
    + rewrite string_append_assoc.
      change (String "/" cut ++ r)%string with (String "/" (cut ++ r)%string).
      now rewrite <- Hcut.
    + rewrite count_slashes_app. simpl. lia.
Qed.

Lemma getFileName_loop_none (n : nat) (s : string) :
  getFileName_loop n s = None <-> count_slashes s < n.
Proof.
  revert s. induction n as [|n IH]; intros s; simpl.
  - split; [discriminate | lia].
  - destruct (Js.indexOf "/" s) as [i|] eqn:Hi.
    + destruct (indexOf_slash_some s i Hi) as (before & Hs & Hb).
      rewrite IH. rewrite Hs at 2. rewrite count_slashes_app. simpl. lia.
    + apply indexOf_slash_none in Hi. split; [lia | reflexivity].
Qed.

(** X1.  [getFileName] returns [null] exactly when the entry name holds
    fewer slashes than the number of components to strip. *)
Theorem getFileName_null_iff (entryName : string) (virtualPath : nat) :
  getFileName entryName virtualPath = None <->
  count_slashes entryName < virtualPath.
Proof. apply getFileName_loop_none. Qed.

(** X2.  When [getFileName] returns a name, that name is what follows the
    [virtualPath]-th slash: the entry name is the text cut off, which holds
    exactly [virtualPath] slashes, followed by the result. *)
Theorem getFileName_suffix (entryName result : string) (virtualPath : nat) :
  getFileName entryName virtualPath = Some result ->
  exists cut, entryName = (cut ++ result)%string /\
              count_slashes cut = virtualPath /\
              count_slashes result = count_slashes entryName - virtualPath.
Proof.
  intros Hr. destruct (getFileName_loop_cut _ _ _ Hr) as (cut & Hs & Hn).
  exists cut. split; [exact Hs|]. split; [exact Hn|].
  rewrite Hs, count_slashes_app. lia.
Qed.

Lemma getFileName_suffix_witness :
  getFileName "package/lib/index.js" 1 = Some "lib/index.js" /\
  exists cut, "package/lib/index.js" = (cut ++ "lib/index.js")%string /\
              count_slashes cut = 1.
Proof.
  split; [reflexivity|].
  destruct (getFileName_suffix "package/lib/index.js" "lib/index.js" 1 eq_refl)
    as (cut & Hs & Hn & _).
  exists cut. split; [exact Hs | exact Hn].
Defined.

(** X3.  Stripping [m + n] components is stripping [m] components and then
    [n] components of the result; it fails when either step fails. *)
Theorem getFileName_add (entryName : string) (m n : nat) :
  getFileName entryName (m + n) =
    match getFileName entryName m with
    | Some rest => getFileName rest n
    | None => None
    end.
Proof.
  unfold getFileName. revert entryName.
  induction m as [|m IH]; intros entryName; simpl; [reflexivity|].
  destruct (Js.indexOf "/" entryName); [apply IH | reflexivity].
Qed.

(** ** Archives and the progress bar *)

Section ArchiveProperties.
Context `{Host}.

Lemma keeps_ret {X A} (proj : State -> X) (a : A) : keeps proj (ret a).
Proof. intros st. reflexivity. Qed.

Lemma keeps_throw {X A} (proj : State -> X) (e : error) : keeps proj (@throw _ A e).
Proof. intros st. reflexivity. Qed.

Lemma keeps_pending {X A} (proj : State -> X) : keeps proj (@pending _ A).
Proof. intros st. reflexivity. Qed.

Lemma keeps_bind {X A B} (proj : State -> X) (m : M A) (k : A -> M B) :
  keeps proj m -> (forall a, keeps proj (k a)) -> keeps proj (bind m k).
Proof.
  intros Hm Hk st. unfold bind. specialize (Hm st).
  destruct (m st) as [[a|e|] s1]; cbn [fst snd] in *; try exact Hm.
  now rewrite Hk.
Qed.

Lemma keeps_for_each {X A} (proj : State -> X) (f : A -> M unit) (arr : list A) :
  (forall x, keeps proj (f x)) -> keeps proj (for_each f arr).
Proof.
  intros Hf. induction arr as [|x arr IH]; cbn [for_each].
  - apply keeps_ret.
  - apply keeps_bind; [apply Hf | intros _; exact IH].
Qed.

Lemma keeps_promise_all {X A B} (proj : State -> X) (f : A -> M B) (arr : list A) :
  (forall x, keeps proj (f x)) -> keeps proj (promise_all f arr).
Proof.
  intros Hf. induction arr as [|x arr IH]; cbn [promise_all]; [apply keeps_ret|].
  intros st. specialize (Hf x st).
  destruct (f x st) as [o s1]. specialize (IH s1).
  destruct (promise_all f arr s1) as [os s2]. cbn [fst snd] in *. congruence.
Qed.

Lemma keeps_host_call {X A} (proj : State -> X) (o : origin) (r : string + A) :
  keeps proj (host_call o r).
Proof. destruct r; [apply keeps_throw | apply keeps_ret]. Qed.

Lemma first_match_some (fileName : string) (virtualPath : nat)
    (entries : list (string * Buffer)) (data : Buffer) :
  first_match fileName virtualPath entries = Some data <->
  exists skipped header_name rest,
    entries = skipped ++ (header_name, data) :: rest /\
    getFileName header_name virtualPath = Some fileName /\
    Forall (fun entry => getFileName (fst entry) virtualPath <> Some fileName) skipped.
Proof.
  induction entries as [|[h d] entries IH]; simpl.
  - split; [discriminate|]. intros (skipped & ? & ? & Heq & _).
    destruct skipped; discriminate.
  - case_bool_decide as Hh.
    + split.
      * intros [= <-]. exists [], h, entries. now repeat split.
      * intros (skipped & h' & rest & Heq & Hm & Hskip).
        destruct skipped as [|[h0 d0] skipped]; simpl in Heq.
        -- now injection Heq as _ <- _.
        -- injection Heq as <- <- _. inversion Hskip; subst. contradiction.
    + rewrite IH. split.
      * intros (skipped & h' & rest & -> & Hm & Hskip).
        exists ((h, d) :: skipped), h', rest. repeat split; [exact Hm|].
        now constructor.
      * intros (skipped & h' & rest & Heq & Hm & Hskip).
        destruct skipped as [|[h0 d0] skipped]; simpl in Heq.
        -- injection Heq as <- _ _. contradiction.
        -- injection Heq as <- <- ->. inversion Hskip; subst.
           exists skipped, h', rest. now repeat split.
Qed.

(** X4.  [readFileFromArchive] changes nothing in the state, and it is
    fulfilled exactly when some entry's stripped name is [fileName]; the
    value is then the contents of the first such entry in stream order,
    whatever comes after it in the archive, a decoding error included. *)
Theorem readFileFromArchive_first_match (fileName : string) (buffer : Buffer)
    (virtualPath : nat) (st : State) :
  snd (readFileFromArchive fileName buffer virtualPath st) = st /\
  forall data,
    fst (readFileFromArchive fileName buffer virtualPath st) = Ok data <->
    exists skipped header_name rest,
      fst (untar buffer) = skipped ++ (header_name, data) :: rest /\
      getFileName header_name virtualPath = Some fileName /\
      Forall (fun entry => getFileName (fst entry) virtualPath <> Some fileName)
        skipped.
Proof.
  unfold readFileFromArchive. destruct (untar buffer) as [entries failure].
  cbn [fst]. split.
  - destruct (first_match _ _ _); [reflexivity|]. destruct failure; reflexivity.
  - intros data. rewrite <- first_match_some.
    destruct (first_match _ _ _) as [d|]; cbn.
    + split; congruence.
    + destruct failure; split; discriminate.
Qed.

Lemma keeps_extractArchiveTo {X} (proj : State -> X) (packageBuffer : Buffer)
    (target : string) (virtualPath : nat) :
  (forall o f, keeps proj (fs_update o f)) ->
  keeps proj (extractArchiveTo packageBuffer target virtualPath).
Proof.
  intros Hupd. unfold extractArchiveTo.
  destruct (untar packageBuffer) as [entries failure].
  apply keeps_bind; [apply keeps_for_each; intros entry; apply Hupd|].
  intros _. destruct failure; [apply keeps_throw | apply keeps_ret].
Qed.

(** X5.  [extractArchiveTo] touches the file system only: however it
    settles, the loader's cache, the progress bar, the list of requests and
    the printed lines are as before. *)
Theorem extractArchiveTo_frame (packageBuffer : Buffer) (target : string)
    (virtualPath : nat) (st : State) :
  required (snd (extractArchiveTo packageBuffer target virtualPath st)) = required st /\
  pace (snd (extractArchiveTo packageBuffer target virtualPath st)) = pace st /\
  requests (snd (extractArchiveTo packageBuffer target virtualPath st)) = requests st /\
  stdout (snd (extractArchiveTo packageBuffer target virtualPath st)) = stdout st.
Proof.
  repeat split; apply keeps_extractArchiveTo; intros o f s; unfold fs_update;
    destruct (f (fs s)); reflexivity.
Qed.

(** An archive with no entries: [extractArchiveTo] writes nothing. *)
Lemma extractArchiveTo_empty (packageBuffer : Buffer) (target : string)
    (virtualPath : nat) (st : State) :
  untar packageBuffer = ([], None) ->
  extractArchiveTo packageBuffer target virtualPath st = (Ok tt, st).
Proof. intros Hu. unfold extractArchiveTo. now rewrite Hu. Qed.

(** X6.  Once its callback has settled, [trackProgress] settles the same
    way, with the same value or the same error, and the bar it made is
    complete; the file system, the loader's cache, the requests and the
    printed lines are as the callback left them. *)
Theorem trackProgress_settles {A} (cb : M A) (st : State) :
  fst (cb (with_new_bar st)) <> Pending ->
  fst (trackProgress cb st) = fst (cb (with_new_bar st)) /\
  complete (pace (snd (trackProgress cb st))) = true /\
  fs (snd (trackProgress cb st)) = fs (snd (cb (with_new_bar st))) /\
  required (snd (trackProgress cb st)) = required (snd (cb (with_new_bar st))) /\
  requests (snd (trackProgress cb st)) = requests (snd (cb (with_new_bar st))) /\
  stdout (snd (trackProgress cb st)) = stdout (snd (cb (with_new_bar st))).
Proof.
  unfold trackProgress, with_new_bar. intros Hsettled.
  destruct (cb _) as [[a|e|] s1]; cbn [fst snd] in *; [| |contradiction];
    (repeat split; unfold finalize; destruct (complete (pace s1)) eqn:Hc;
     cbn; congruence).
Qed.

End ArchiveProperties.

Lemma trackProgress_settles_witness :
  let H := sim_host [] in
  fst (throw (A := unit) (Error "boom") (with_new_bar (initial_state ∅))) <> Pending /\
  fst (trackProgress (throw (A := unit) (Error "boom")) (initial_state ∅))
    = Throw (Error "boom") /\
  complete (pace (snd (trackProgress (throw (A := unit) (Error "boom"))
                         (initial_state ∅)))) = true.
Proof.
  assert (Hs : fst (@throw (sim_host []) unit (Error "boom")
                      (with_new_bar (initial_state ∅))) <> Pending) by discriminate.
  split; [exact Hs|].
  destruct (@trackProgress_settles (sim_host []) unit (throw (Error "boom"))
              (initial_state ∅) Hs) as (Ho & Hc & _).
  split; [exact Ho | exact Hc].
Defined.

(** ** The resolver *)

Section ResolverProperties.
Context `{Host}.

Lemma bind_ok_inv {A B} (m : M A) (k : A -> M B) (st : State) (b : B) :
  fst (bind m k st) = Ok b ->
  exists a, fst (m st) = Ok a /\ fst (k a (snd (m st))) = Ok b.
Proof.
  unfold bind. destruct (m st) as [[a|e|] s1]; cbn [fst snd]; try discriminate.
  intros Hk. now exists a.
Qed.

(** A fulfilled [Promise.all]: every task was fulfilled, and the values
    come in the order of the array. *)
Lemma promise_all_ok_inv {A B} (f : A -> M B) (arr : list A) (st : State)
    (bs : list B) :
  fst (promise_all f arr st) = Ok bs ->
  Forall2 (fun x b => exists s, fst (f x s) = Ok b) arr bs.
Proof.
  revert st bs. induction arr as [|x arr IH]; intros st bs; cbn [promise_all].
  - intros [= <-]. constructor.
  - destruct (f x st) as [o s1] eqn:Hx.
    destruct (promise_all f arr s1) as [os s2] eqn:Hrest. cbn [fst].
    destruct o as [b|e|]; [|discriminate|destruct os; discriminate].
    destruct os as [bs'|e|]; [|discriminate|discriminate].
    intros [= <-]. constructor.
    + exists st. now rewrite Hx.
    + apply (IH s1). now rewrite Hrest.
Qed.

Lemma below_node (Q : gmap string string -> string -> string -> Prop)
    (available : gmap string string) (n r : string) (ds : list Pkg) :
  below Q available (mkPkg n r ds) <->
  Forall (fun c => Q available (name c) (reference c) /\
                   below Q (<[name c := reference c]> available) c) ds.
Proof.
  simpl. induction ds as [|d ds IH]; simpl.
  - split; auto.
  - rewrite IH, Forall_cons. reflexivity.
Qed.

Lemma every_node (P : string -> string -> Prop) (n r : string) (ds : list Pkg) :
  every P (mkPkg n r ds) <->
  Forall (fun d => P (name d) (reference d) /\ every P d) ds.
Proof.
  simpl. induction ds as [|d ds IH]; simpl.
  - split; auto.
  - rewrite IH, Forall_cons. reflexivity.
Qed.

Lemma below_every (P : string -> string -> Prop) (t : Pkg) :
  forall available, below (fun _ => P) available t -> every P t.
Proof.
  induction t as [n r ds IH] using Pkg_ind'. intros available Hb.
  apply below_node in Hb. apply every_node.
  rewrite Forall_forall in IH, Hb. apply Forall_forall. intros d Hd.
  destruct (Hb d Hd) as [HP Hbd]. split; [exact HP|]. eapply IH; eauto.
Qed.

(** What a fulfilled [getPinnedReference] returns: the name as it came,
    with either the reference as it came, or a version that
    [semver.maxSatisfying] chose for the range. *)
Lemma getPinnedReference_ok (d p : Pkg) (st : State) :
  fst (getPinnedReference d st) = Ok p ->
  name p = name d /\
  ((needs_pinning (reference d) = false /\ reference p = reference d) \/
   (needs_pinning (reference d) = true /\
    exists versions, semver_maxSatisfying versions (reference d) = Some (reference p))).
Proof.
  unfold getPinnedReference. destruct (needs_pinning (reference d)) eqn:Hpin.
  - intros Hok.
    apply bind_ok_inv in Hok as (response & _ & Hok).
    apply bind_ok_inv in Hok as (versions & _ & Hok).
    destruct (semver_maxSatisfying versions (reference d)) as [v|] eqn:Hmax;
      [|discriminate].
    injection Hok as <-. split; [reflexivity|]. right. split; [reflexivity|].
    now exists versions.
  - intros [= <-]. split; [reflexivity|]. now left.
Qed.

(** The shape of a fulfilled resolution, for a property [Q] that holds of
    whatever a volatile dependency is pinned to. *)
Lemma getPackageDependencyTree_shape
    (Q : gmap string string -> string -> string -> Prop) :
  (forall d available st p,
     isVolatileDependency d available = true ->
     fst (getPinnedReference d st) = Ok p ->
     Q available (name p) (reference p)) ->
  forall fuel node available st t,
    fst (getPackageDependencyTree fuel node available st) = Ok t ->
    name t = name node /\ reference t = reference node /\
    List.map name (dependencies t) =
      List.map name (List.filter (fun d => isVolatileDependency d available)
                       (dependencies node)) /\
    below Q available t.
Proof.
  intros HQ. induction fuel as [|fuel IH]; intros node available st t;
    cbn [getPackageDependencyTree]; [discriminate|].
  intros Hok. apply bind_ok_inv in Hok as (resolved & Hall & Hret).
  injection Hret as <-. cbn [name reference dependencies].
  split; [reflexivity|]. split; [reflexivity|].
  apply promise_all_ok_inv in Hall.
  assert (Hvol : Forall (fun d => isVolatileDependency d available = true)
                   (List.filter (fun d => isVolatileDependency d available)
                      (dependencies node))).
  { apply Forall_forall. intros d Hd. apply list_elem_of_In, filter_In in Hd.
    apply Hd. }
  revert Hvol Hall.
  generalize (List.filter (fun d => isVolatileDependency d available)
                (dependencies node)).
  intros arr Hvol Hall. rewrite below_node.
  induction Hall as [|d c arr resolved (s & Hc) _ IHall]; [split; constructor|].
  inversion Hvol as [|? ? Hd Hvol']; subst.
  destruct (IHall Hvol') as [Hnames Hbelow].
  apply bind_ok_inv in Hc as (? & _ & Hc).
  apply bind_ok_inv in Hc as (p & Hp & Hc).
  apply bind_ok_inv in Hc as (subs & _ & Hc).
  apply bind_ok_inv in Hc as (? & _ & Hc).
  apply IH in Hc as (Hn & Hr & _ & Hb). cbn [name reference] in Hn, Hr.
  pose proof (getPinnedReference_ok _ _ _ Hp) as [Hname _].
  split.
  - simpl. rewrite Hnames, Hn, Hname. reflexivity.
  - constructor; [|exact Hbelow]. rewrite Hn, Hr. split; [|exact Hb].
    eapply HQ; eauto.
Qed.

(** X7.  When every dependency of the node is already satisfied by
    [available], [getPackageDependencyTree] returns the node with no
    children and does nothing else: no request, no progress update. *)
Theorem getPackageDependencyTree_all_satisfied (fuel : nat) (node : Pkg)
    (available : gmap string string) (st : State) :
  Forall (fun d => isVolatileDependency d available = false) (dependencies node) ->
  getPackageDependencyTree (S fuel) node available st =
    (Ok (mkPkg (name node) (reference node) []), st).
Proof.
  intros Hsat. cbn [getPackageDependencyTree].
  replace (List.filter _ (dependencies node)) with (@nil Pkg); [reflexivity|].
  induction Hsat as [|d ds Hd _ IH]; simpl; [reflexivity|]. now rewrite Hd.
Qed.

(** X8.  A fulfilled resolution returns the node's own name and reference,
    and one child per dependency that was not already satisfied, under the
    dependency's name and in the order of the manifest. *)
Theorem getPackageDependencyTree_children (fuel : nat) (node : Pkg)
    (available : gmap string string) (st : State) (t : Pkg) :
  fst (getPackageDependencyTree fuel node available st) = Ok t ->
  name t = name node /\ reference t = reference node /\
  List.map name (dependencies t) =
    List.map name (List.filter (fun d => isVolatileDependency d available)
                     (dependencies node)).
Proof.
  intros Hok.
  destruct (getPackageDependencyTree_shape (fun _ _ _ => True)
              (fun _ _ _ _ _ _ => I) fuel node available st t Hok)
    as (Hn & Hr & Hnames & _).
  now repeat split.
Qed.

(** X9.  When [semver.maxSatisfying] only returns valid versions, no node
    below the root of a resolved tree carries a reference that still needs
    pinning: each is an exact version, or no range at all. *)
Theorem getPackageDependencyTree_pinned (fuel : nat) (node : Pkg)
    (available : gmap string string) (st : State) (t : Pkg) :
  (forall versions range v,
     semver_maxSatisfying versions range = Some v ->
     Js.truthy_opt (semver_valid v) = true) ->
  fst (getPackageDependencyTree fuel node available st) = Ok t ->
  every (fun _ reference => needs_pinning reference = false) t.
Proof.
  intros Hvalid Hok. apply (below_every _ t available).
  eapply getPackageDependencyTree_shape; [|exact Hok].
  intros d avail s p _ Hp.
  destruct (getPinnedReference_ok _ _ _ Hp) as [_ [[Hno ->]|[_ [versions Hmax]]]];
    [exact Hno|].
  unfold needs_pinning. rewrite (Hvalid _ _ _ Hmax). apply andb_false_r.
Qed.


(** X11.  However it settles, [getPackageDependencyTree] writes nothing:
    the file system, the loader's cache and the printed lines are as
    before. *)
Theorem getPackageDependencyTree_frame (fuel : nat) (node : Pkg)
    (available : gmap string string) (st : State) :
  fs (snd (getPackageDependencyTree fuel node available st)) = fs st /\
  required (snd (getPackageDependencyTree fuel node available st)) = required st /\
  stdout (snd (getPackageDependencyTree fuel node available st)) = stdout st.
Proof.
  destruct (neutral_getPackageDependencyTree fuel node available st)
    as (Hfs & Hreq & Hout).
  now repeat split.
Qed.

(** X12.  For a reference that needs pinning, when the registry answers
    with a list in which [semver.maxSatisfying] finds a version,
    [getPinnedReference] returns the name with that version and has made
    the one request for [https://registry.yarnpkg.com/<name>]; the status
    of the response is not looked at. *)
Theorem getPinnedReference_pins (d : Pkg) (ok : bool) (body : Buffer)
    (versions : list string) (v : string) (st : State) :
  needs_pinning (reference d) = true ->
  http_get ("https://registry.yarnpkg.com/" ++ name d) = inr (ok, body) ->
  response_versions body = inr versions ->
  semver_maxSatisfying versions (reference d) = Some v ->
  getPinnedReference d st =
    (Ok (descriptor (name d) v),
     requested ("https://registry.yarnpkg.com/" ++ name d) st).
Proof.
  intros Hpin Hget Hvers Hmax. unfold getPinnedReference. rewrite Hpin.
  unfold bind, fetch. rewrite Hget. cbn [snd]. rewrite Hvers.
  cbn [host_call ret fst snd]. now rewrite Hmax.
Qed.

End ResolverProperties.

(** ** The resolver on the concrete host *)

Lemma Semver_maxSatisfying_sound (versions : list string) (range v : string) :
  Semver.maxSatisfying versions range = Some v ->
  In v versions /\ Semver.satisfies (Some v) range = true.
Proof.
  revert v. induction versions as [|s rest IH]; intros v;
    cbn [Semver.maxSatisfying In]; [discriminate|].
  destruct (Semver.satisfies (Some s) range) eqn:Hs.
  - destruct (Semver.maxSatisfying rest range) as [b|].
    + destruct (IH b eq_refl) as [Hin Hsat].
      assert (Hpick : forall c : bool,
                 (if c then Some b else Some s) = Some v ->
                 (s = v \/ In v rest) /\ Semver.satisfies (Some v) range = true).
      { intros [|] [= <-]; split; auto. }
      destruct (Semver.parse s); [destruct (Semver.parse b)|];
        try (intros [= <-]; split; [now left | exact Hs]).
      apply Hpick.
    + intros [= <-]. split; [now left | exact Hs].
  - intros Hv. destruct (IH v Hv) as [Hin Hsat]. split; [now right | exact Hsat].
Qed.

Lemma Semver_satisfies_valid (v range : string) :
  Semver.satisfies (Some v) range = true ->
  Js.truthy_opt (Semver.valid v) = true.
Proof.
  unfold Semver.satisfies, Semver.valid.
  destruct (Semver.parse v) eqn:Hp; [|discriminate]. intros _.
  destruct v; [discriminate Hp | reflexivity].
Qed.

Lemma getPackageDependencyTree_all_satisfied_witness :
  let H := sim_host [] in
  let node := mkPkg "a" "1.2.0" [descriptor "b" "^1.0.0"; descriptor "a" "1.2.0"] in
  let available : gmap string string := {[ "a" := "1.2.0"; "b" := "1.4.0" ]} in
  Forall (fun d => isVolatileDependency d available = false) (dependencies node) /\
  getPackageDependencyTree 1 node available (initial_state ∅) =
    (Ok (mkPkg "a" "1.2.0" []), initial_state ∅).
Proof.
  assert (Hsat : Forall (fun d => @isVolatileDependency (sim_host []) d
                                    {[ "a" := "1.2.0"; "b" := "1.4.0" ]} = false)
                   [descriptor "b" "^1.0.0"; descriptor "a" "1.2.0"]).
  { repeat constructor. }
  split; [exact Hsat|].
  exact (@getPackageDependencyTree_all_satisfied (sim_host []) 0
           (mkPkg "a" "1.2.0" [descriptor "b" "^1.0.0"; descriptor "a" "1.2.0"])
           {[ "a" := "1.2.0"; "b" := "1.4.0" ]} (initial_state ∅) Hsat).
Defined.

Lemma getPackageDependencyTree_children_witness :
  let H := sim_host registry_world in
  fst (getPackageDependencyTree 4 registry_project ∅ (initial_state ∅))
    = Ok registry_resolved /\
  List.map name (dependencies registry_resolved) = ["a"].
Proof.
  assert (Hok : fst (@getPackageDependencyTree (sim_host registry_world) 4
                       registry_project ∅ (initial_state ∅)) = Ok registry_resolved)
    by (vm_compute; reflexivity).
  split; [exact Hok|].
  destruct (@getPackageDependencyTree_children (sim_host registry_world) 4
              registry_project ∅ (initial_state ∅) registry_resolved Hok)
    as (_ & _ & Hnames).
  exact Hnames.
Defined.

Lemma getPackageDependencyTree_pinned_witness :
  let H := sim_host registry_world in
  fst (getPackageDependencyTree 4 registry_project ∅ (initial_state ∅))
    = Ok registry_resolved /\
  every (fun _ reference => needs_pinning reference = false) registry_resolved.
Proof.
  assert (Hok : fst (@getPackageDependencyTree (sim_host registry_world) 4
                       registry_project ∅ (initial_state ∅)) = Ok registry_resolved)
    by (vm_compute; reflexivity).
  split; [exact Hok|].
  apply (@getPackageDependencyTree_pinned (sim_host registry_world) 4
           registry_project ∅ (initial_state ∅) registry_resolved); [|exact Hok].
  intros versions range v Hmax.
  destruct (Semver_maxSatisfying_sound versions range v Hmax) as [_ Hsat].
  exact (Semver_satisfies_valid v range Hsat).
Defined.


Lemma getPinnedReference_pins_witness :
  let H := sim_host range_world in
  needs_pinning "^1.2.0" = true /\
  getPinnedReference (descriptor "a" "^1.2.0") (initial_state ∅) =
    (Ok (descriptor "a" "1.3.0"),
     requested "https://registry.yarnpkg.com/a" (initial_state ∅)).
Proof.
  split; [reflexivity|].
  exact (@getPinnedReference_pins (sim_host range_world) (descriptor "a" "^1.2.0")
           false (Index ["1.2.0"; "1.2.5"; "1.3.0"; "2.0.0"])
           ["1.2.0"; "1.2.5"; "1.3.0"; "2.0.0"] "1.3.0" (initial_state ∅)
           eq_refl eq_refl eq_refl eq_refl).
Defined.

(** ** The progress bar during resolution and linking *)

Section PaceProperties.
Context `{Host}.

Ltac leaf :=
  let st := fresh "st" in
  intros st;
  unfold fetch, fs_update, console_log, require, host_call, ret, throw;
  repeat (match goal with
          | |- context [match ?x with _ => _ end] => destruct x
          end);
  reflexivity.

Lemma keeps_pace_fetchPackage (fuel : nat) (name reference : string) :
  keeps pace (fetchPackage fuel name reference).
Proof.
  revert reference. induction fuel as [|fuel IH]; intros reference; cbn [fetchPackage].
  - apply keeps_pending.
  - destruct (is_path reference); [leaf|].
    destruct (Js.truthy_opt _); [apply IH|].
    apply keeps_bind; [leaf|]. intros response.
    destruct (negb _); [apply keeps_throw | apply keeps_ret].
Qed.

Lemma keeps_pace_readFileFromArchive (fileName : string) (buffer : Buffer)
    (virtualPath : nat) :
  keeps pace (readFileFromArchive fileName buffer virtualPath).
Proof.
  unfold readFileFromArchive. destruct (untar buffer) as [entries failure].
  destruct (first_match _ _ _); [apply keeps_ret|].
  destruct failure; apply keeps_throw.
Qed.

Lemma keeps_pace_getPinnedReference (d : Pkg) : keeps pace (getPinnedReference d).
Proof.
  unfold getPinnedReference. destruct (needs_pinning _); [|apply keeps_ret].
  apply keeps_bind; [leaf|]. intros response.
  apply keeps_bind; [apply keeps_host_call|]. intros versions.
  destruct (semver_maxSatisfying _ _); [apply keeps_ret | apply keeps_throw].
Qed.

Lemma keeps_pace_getPackageDependencies (fuel : nat) (d : Pkg) :
  keeps pace (getPackageDependencies fuel d).
Proof.
  unfold getPackageDependencies.
  apply keeps_bind; [apply keeps_pace_fetchPackage|]. intros packageBuffer.
  apply keeps_bind; [apply keeps_pace_readFileFromArchive|]. intros data.
  apply keeps_bind; [apply keeps_host_call|]. intros packageJson.
  apply keeps_ret.
Qed.

Lemma keeps_pace_fetch_and_extract (fuel : nat) (name reference cwd : string) :
  keeps pace (fetch_and_extract fuel name reference cwd).
Proof.
  unfold fetch_and_extract. destruct (Js.truthy reference); [|apply keeps_ret].
  apply keeps_bind; [apply keeps_pace_fetchPackage|]. intros packageBuffer.
  apply keeps_extractArchiveTo. intros o f. leaf.
Qed.

Lemma keeps_pace_link_bins (cwd target : string) (bin : list (string * string)) :
  keeps pace (link_bins cwd target bin).
Proof.
  unfold link_bins. apply keeps_for_each. intros entry.
  apply keeps_bind; [leaf|]. intros _.
  apply keeps_bind; [leaf|]. intros _.
  apply keeps_bind.
  - unfold call_free. destruct (identifier_bound _);
      [apply keeps_ret | apply keeps_throw].
  - intros link. leaf.
Qed.

Lemma keeps_pace_run_scripts (target : string) (scripts : list (string * string)) :
  keeps pace (run_scripts target scripts).
Proof.
  unfold run_scripts. apply keeps_for_each. intros scriptName.
  destruct (Js.prop scriptName scripts) as [script|]; [|apply keeps_ret].
  destruct (Js.truthy script); [leaf | apply keeps_ret].
Qed.

Lemma balanced_keeps {A} (m : M A) : keeps pace m -> balanced 0 0 m.
Proof. intros Hm st a _. rewrite (Hm st). lia. Qed.

Lemma balanced_bind {A B} (dt1 dc1 dt2 dc2 : nat) (m : M A) (k : A -> M B) :
  balanced dt1 dc1 m -> (forall a, balanced dt2 dc2 (k a)) ->
  balanced (dt1 + dt2) (dc1 + dc2) (bind m k).
Proof.
  intros Hm Hk st b. unfold bind. specialize (Hm st).
  destruct (m st) as [[a|e|] s1]; cbn [fst snd] in *; try discriminate.
  intros Hb. specialize (Hm a eq_refl). specialize (Hk a s1 b Hb). lia.
Qed.

Lemma balanced_promise_all {A B} (f : A -> M B) (arr : list A) :
  (forall x, balanced 0 0 (f x)) -> balanced 0 0 (promise_all f arr).
Proof.
  intros Hf. induction arr as [|x arr IH]; cbn [promise_all].
  - intros st a _. cbn. lia.
  - intros st bs. specialize (Hf x st).
    destruct (f x st) as [o s1]. specialize (IH s1).
    destruct (promise_all f arr s1) as [os s2]. cbn [fst snd] in *.
    destruct o as [b|e|]; [|discriminate|destruct os; discriminate].
    destruct os as [bs'|e|]; [|discriminate|discriminate].
    intros _. specialize (Hf b eq_refl). specialize (IH bs' eq_refl). lia.
Qed.

Lemma balanced_pace_total_incr : balanced 1 0 pace_total_incr.
Proof. intros st a _. cbn. lia. Qed.

Lemma balanced_pace_tick : balanced 0 1 pace_tick.
Proof. intros st a _. cbn. lia. Qed.

Lemma balanced_getPackageDependencyTree (fuel : nat) :
  forall node available, balanced 0 0 (getPackageDependencyTree fuel node available).
Proof.
  induction fuel as [|fuel IH]; intros node available; cbn [getPackageDependencyTree].
  - intros st a. discriminate.
  - apply (balanced_bind 0 0 0 0); [|intros resolved; apply balanced_keeps, keeps_ret].
    apply balanced_promise_all. intros d.
    assert (Htask :
      balanced (1 + (0 + (0 + (0 + 0)))) (0 + (0 + (0 + (1 + 0))))
        (let! _ := pace_total_incr in
         let! pinnedDependency := getPinnedReference d in
         let! subDependencies := getPackageDependencies (S fuel) pinnedDependency in
         let! _ := pace_tick in
         getPackageDependencyTree fuel
           (mkPkg (name pinnedDependency) (reference pinnedDependency) subDependencies)
           (<[name pinnedDependency := reference pinnedDependency]> available))).
    { apply balanced_bind; [apply balanced_pace_total_incr|]. intros _.
      apply balanced_bind; [apply balanced_keeps, keeps_pace_getPinnedReference|].
      intros pinned.
      apply balanced_bind; [apply balanced_keeps, keeps_pace_getPackageDependencies|].
      intros subs.
      apply balanced_bind; [apply balanced_pace_tick|]. intros _. apply IH. }
    intros st a Ha. specialize (Htask st a Ha). lia.
Qed.

(** X13.  In a fulfilled resolution every unit of work added to the bar
    has been ticked: [pace.total] has grown by exactly the number of
    ticks. *)
Theorem getPackageDependencyTree_ticks (fuel : nat) (node : Pkg)
    (available : gmap string string) (st : State) (t : Pkg) :
  fst (getPackageDependencyTree fuel node available st) = Ok t ->
  total (pace (snd (getPackageDependencyTree fuel node available st)))
    + curr (pace st)
  = total (pace st)
    + curr (pace (snd (getPackageDependencyTree fuel node available st))).
Proof.
  intros Hok.
  pose proof (balanced_getPackageDependencyTree fuel node available st t Hok). lia.
Qed.

Lemma balanced_link_dependency (recur : Pkg -> string -> M unit) (cwd : string)
    (d : Pkg) :
  (forall target, balanced 0 0 (recur d target)) ->
  balanced 0 0 (link_dependency recur cwd d).
Proof.
  intros Hrec. unfold link_dependency.
  apply (balanced_bind 0 0 0 0); [apply Hrec|]. intros _.
  apply balanced_keeps.
  apply keeps_bind; [leaf|]. intros json.
  apply keeps_bind; [apply keeps_pace_link_bins|]. intros _.
  destruct (pj_scripts json); [apply keeps_pace_run_scripts | apply keeps_ret].
Qed.

Lemma balanced_linkPackages (fuel : nat) (t : Pkg) :
  forall cwd, balanced 0 0 (linkPackages fuel t cwd).
Proof.
  induction t as [n r ds IH] using Pkg_ind'. intros cwd.
  rewrite linkPackages_node.
  assert (Hnode :
    balanced (1 + (0 + (0 + (0 + 0)))) (0 + (0 + (0 + (0 + 1))))
      (let! _ := pace_total_incr in
       let! _ := getPackageDependencyTree fuel (mkPkg n r ds) ∅ in
       let! _ := fetch_and_extract fuel n r cwd in
       let! _ := promise_all (link_dependency (linkPackages fuel) cwd) ds in
       pace_tick)).
  { apply balanced_bind; [apply balanced_pace_total_incr|]. intros _.
    apply balanced_bind; [apply balanced_getPackageDependencyTree|]. intros _.
    apply balanced_bind; [apply balanced_keeps, keeps_pace_fetch_and_extract|].
    intros _.
    apply balanced_bind; [|intros _; apply balanced_pace_tick].
    assert (Hall : forall d, In d ds ->
                     balanced 0 0 (link_dependency (linkPackages fuel) cwd d)).
    { intros d Hd. apply balanced_link_dependency. intros target.
      rewrite Forall_forall in IH. apply IH. now apply list_elem_of_In. }
    clear IH. induction ds as [|d ds IHds]; cbn [promise_all].
    - intros st a _. cbn. lia.
    - intros st bs.
      pose proof (Hall d (or_introl eq_refl) st) as Hd.
      destruct (link_dependency (linkPackages fuel) cwd d st) as [o s1].
      specialize (IHds (fun d' Hd' => Hall d' (or_intror Hd')) s1).
      destruct (promise_all _ ds s1) as [os s2]. cbn [fst snd] in *.
      destruct o as [b|e|]; [|discriminate|destruct os; discriminate].
      destruct os as [bs'|e|]; [|discriminate|discriminate].
      intros _. specialize (Hd b eq_refl). specialize (IHds bs' eq_refl). lia. }
  intros st a Ha. specialize (Hnode st a Ha). lia.
Qed.

(** X14.  In a fulfilled run of [linkPackages] every unit of work added to
    the bar has been ticked, for the nodes linked and for the resolutions
    made on the way: [pace.total] has grown by exactly the number of
    ticks. *)
Theorem linkPackages_ticks (fuel : nat) (t : Pkg) (cwd : string) (st : State) :
  fst (linkPackages fuel t cwd st) = Ok tt ->
  total (pace (snd (linkPackages fuel t cwd st))) + curr (pace st)
  = total (pace st) + curr (pace (snd (linkPackages fuel t cwd st))).
Proof.
  intros Hok. pose proof (balanced_linkPackages fuel t cwd st tt Hok). lia.
Qed.

End PaceProperties.

(** ** The linker and the entry point *)

Section LinkerProperties.
Context `{Host}.

(** X15.  When the resolution call that [linkPackages] makes at a node
    throws, [linkPackages] throws the same error and does nothing after
    it: the node's tarball is not fetched, nothing is extracted or linked
    below it, and the file system is as it was. *)
Theorem linkPackages_stops_when_resolution_throws (fuel : nat) (n r : string)
    (ds : list Pkg) (cwd : string) (st : State) (e : error) :
  fst (getPackageDependencyTree fuel (mkPkg n r ds) ∅ (snd (pace_total_incr st)))
    = Throw e ->
  linkPackages fuel (mkPkg n r ds) cwd st =
    (Throw e,
     snd (getPackageDependencyTree fuel (mkPkg n r ds) ∅ (snd (pace_total_incr st))))
  /\ fs (snd (linkPackages fuel (mkPkg n r ds) cwd st)) = fs st.
Proof.
  intros Hthrow.
  pose proof (neutral_getPackageDependencyTree fuel (mkPkg n r ds) ∅
                (snd (pace_total_incr st))) as (Hfs & _).
  assert (Hlink :
    linkPackages fuel (mkPkg n r ds) cwd st =
      (let! _ := getPackageDependencyTree fuel (mkPkg n r ds) ∅ in
       let! _ := fetch_and_extract fuel n r cwd in
       let! _ := promise_all (link_dependency (linkPackages fuel) cwd) ds in
       pace_tick) (snd (pace_total_incr st))) by reflexivity.
  assert (Hres :
    linkPackages fuel (mkPkg n r ds) cwd st =
      (Throw e,
       snd (getPackageDependencyTree fuel (mkPkg n r ds) ∅
              (snd (pace_total_incr st))))).
  { rewrite Hlink. unfold bind at 1.
    destruct (getPackageDependencyTree fuel (mkPkg n r ds) ∅
                (snd (pace_total_incr st))) as [o s1].
    cbn [fst snd] in *. now subst o. }
  split; [exact Hres|]. rewrite Hres. cbn [snd]. now rewrite <- Hfs.
Qed.

(** The [PATH] a script of the package in [target] runs with. *)
Lemma run_scripts_unfold (target : string) (scripts : list (string * string))
    (st : State) :
  run_scripts target scripts st =
    for_each (fun scriptName =>
                match Js.prop scriptName scripts with
                | Some script =>
                    if Js.truthy script then
                      fs_update Shell
                        (shell_exec script target
                           (target ++ "/spm_node_modules/.bin:" ++ env_PATH))
                    else ret tt
                | None => ret tt
                end)
      ["preinstall"; "install"; "postinstall"] st.
Proof. reflexivity. Qed.

(** X16.  The scripts run in the order [preinstall], [install], in the
    package's directory and with its own [.bin] directory first on the
    [PATH]; when [install] fails its error is thrown and [postinstall] is
    not run, the changes [preinstall] made to the file system staying. *)
Theorem run_scripts_stops_at_failure (target : string)
    (scripts : list (string * string)) (pre inst detail : string) (files : FS)
    (st : State) :
  Js.prop "preinstall" scripts = Some pre -> Js.truthy pre = true ->
  Js.prop "install" scripts = Some inst -> Js.truthy inst = true ->
  shell_exec pre target (target ++ "/spm_node_modules/.bin:" ++ env_PATH) (fs st)
    = inr files ->
  shell_exec inst target (target ++ "/spm_node_modules/.bin:" ++ env_PATH) files
    = inl detail ->
  run_scripts target scripts st =
    (Throw (HostError Shell detail),
     mkState files (required st) (pace st) (requests st) (stdout st)).
Proof.
  intros Hpre Hpt Hinst Hit Hrun Hfail. rewrite run_scripts_unfold.
  cbn [for_each]. rewrite Hpre, Hpt, Hinst, Hit.
  unfold bind at 1, fs_update at 1. rewrite Hrun.
  unfold bind at 1, fs_update at 1. cbn [fs]. now rewrite Hfail.
Qed.

(** X17.  Only the three phases are looked up: when none of [preinstall],
    [install], [postinstall] is defined with a non-empty command, no
    command is run and nothing changes, whatever other scripts the
    manifest declares. *)
Theorem run_scripts_skips_missing (target : string)
    (scripts : list (string * string)) (st : State) :
  Forall (fun phase => forall script,
            Js.prop phase scripts = Some script -> Js.truthy script = false)
    ["preinstall"; "install"; "postinstall"] ->
  run_scripts target scripts st = (Ok tt, st).
Proof.
  intros Hnone. rewrite run_scripts_unfold.
  induction Hnone as [|phase phases Hphase _ IH]; cbn [for_each]; [reflexivity|].
  destruct (Js.prop phase scripts) as [script|].
  - rewrite (Hphase script eq_refl). unfold bind. cbn [ret]. exact IH.
  - unfold bind. cbn [ret]. exact IH.
Qed.

(** X18.  A project without dependencies installs: the process exits with
    code 0 having printed its two lines, and nothing was requested or
    written. *)
Theorem main_empty_manifest (fuel : nat) (n destPath : string) (st : State) :
  fst (main (S fuel) (mkPkg n "" []) destPath st) = Some 0 /\
  fs (snd (main (S fuel) (mkPkg n "" []) destPath st)) = fs st /\
  requests (snd (main (S fuel) (mkPkg n "" []) destPath st)) = requests st /\
  stdout (snd (main (S fuel) (mkPkg n "" []) destPath st)) =
    "Linking the packages on the filesystem..."
    :: "Resolving the package tree..." :: stdout st.
Proof. repeat split. Qed.

(** X26.  A dependency is linked to the end only when its manifest
    declares no executable: whenever the callback that [linkPackages] maps
    over the dependencies is fulfilled, the manifest it required had no
    [bin] entry. *)
Theorem link_dependency_ok_no_bin (recur : Pkg -> string -> M unit) (cwd : string)
    (dependency : Pkg) (st : State) :
  fst (link_dependency recur cwd dependency st) = Ok tt ->
  exists json,
    fst (require ((cwd ++ "/spm_node_modules/" ++ name dependency)
                  ++ "/package.json")%string
           (snd (recur dependency
                   (cwd ++ "/spm_node_modules/" ++ name dependency)%string st)))
      = Ok json /\
    default [] (pj_bin json) = [].
Proof.
  unfold link_dependency. intros Hok.
  apply bind_ok_inv in Hok as ([] & _ & Hok).
  apply bind_ok_inv in Hok as (json & Hreq & Hok).
  apply bind_ok_inv in Hok as ([] & Hbins & _).
  exists json. split.
  - exact Hreq.
  - destruct (default [] (pj_bin json)) as [|[binName binPath] rest]; [reflexivity|].
    exfalso. revert Hbins. unfold link_bins. cbn [for_each].
    unfold bind at 1. unfold bind at 1. cbn [console_log fst snd].
    unfold bind at 1, fs_update at 1.
    destruct (fs_mkdirp _ _); discriminate.
Qed.

End LinkerProperties.

(** ** The optimizer: what it keeps *)

Lemma key_optimizePackageTree (p : Pkg) : key (optimizePackageTree p) = key p.
Proof. now destruct p. Qed.

Lemma hoist_step_appends (sub : Pkg) (deps hdeps : list Pkg) :
  exists pushed, fst (hoist_step sub (deps, hdeps)) = deps ++ pushed.
Proof.
  unfold hoist_step. destruct (find_by_name (name sub) deps); cbn [fst].
  - exists []. now rewrite app_nil_r.
  - now exists [sub].
Qed.

Lemma hoist_inner_appends (snapshot deps hdeps : list Pkg) :
  exists pushed, fst (hoist_inner snapshot (deps, hdeps)) = deps ++ pushed.
Proof.
  revert deps hdeps. induction snapshot as [|sub rest IH]; intros deps hdeps;
    cbn [hoist_inner].
  - exists []. now rewrite app_nil_r.
  - destruct (hoist_step_appends sub deps hdeps) as [pushed1 Hp1].
    destruct (hoist_step sub (deps, hdeps)) as [deps1 hdeps1]. cbn [fst] in Hp1.
    destruct (IH deps1 hdeps1) as [pushed2 Hp2].
    exists (pushed1 ++ pushed2). now rewrite Hp2, Hp1, app_assoc.
Qed.

Lemma hoist_outer_keys (positions : list nat) (deps : list Pkg) :
  exists hoisted,
    List.map key (hoist_outer positions deps) = List.map key deps ++ hoisted.
Proof.
  revert deps. induction positions as [|i rest IH]; intros deps; cbn [hoist_outer].
  - exists []. now rewrite app_nil_r.
  - destruct (deps !! i) as [hd|] eqn:Hi; [|exists []; now rewrite app_nil_r].
    destruct (hoist_inner_appends (dependencies hd) deps (dependencies hd))
      as [pushed Hp].
    destruct (hoist_inner (dependencies hd) (deps, dependencies hd))
      as [deps1 hdeps1]. cbn [fst] in Hp.
    destruct (IH (<[i:=mkPkg (name hd) (reference hd) hdeps1]> deps1))
      as [hoisted Hh].
    exists (List.map key pushed ++ hoisted). rewrite Hh.
    change (List.map key (<[i:=mkPkg (name hd) (reference hd) hdeps1]> deps1))
      with (key <$> <[i:=mkPkg (name hd) (reference hd) hdeps1]> deps1).
    rewrite list_fmap_insert, list_insert_id.
    + change (key <$> deps1) with (List.map key deps1).
      now rewrite Hp, List.map_app, app_assoc.
    + rewrite list_lookup_fmap, Hp, lookup_app_l by (eapply lookup_lt_Some; exact Hi).
      rewrite Hi. now destruct hd.
Qed.

(** X19.  [optimizePackageTree] keeps the node's own dependencies where
    they are: the children of the result start with the children of the
    input, under the same names and references and in the same order;
    what is hoisted comes after them. *)
Theorem optimizePackageTree_keeps_children (t : Pkg) :
  key (optimizePackageTree t) = key t /\
  exists hoisted,
    List.map key (dependencies (optimizePackageTree t)) =
      List.map key (dependencies t) ++ hoisted.
Proof.
  split; [apply key_optimizePackageTree|].
  destruct t as [n r ds]. cbn [optimizePackageTree dependencies]. unfold hoist.
  destruct (hoist_outer_keys (seq 0 (length (List.map optimizePackageTree ds)))
              (List.map optimizePackageTree ds)) as [hoisted Hh].
  exists hoisted. rewrite Hh. f_equal. rewrite List.map_map.
  apply List.map_ext. intros d. apply key_optimizePackageTree.
Qed.

(** The arrays the loops work on, for the property [P]. *)
Lemma every_take (P : string -> string -> Prop) (k : nat) (arr : list Pkg) :
  Forall (fun d => P (name d) (reference d) /\ every P d) arr ->
  Forall (fun d => P (name d) (reference d) /\ every P d) (take k arr).
Proof. apply Forall_take. Qed.

Lemma hoist_step_every (P : string -> string -> Prop) (sub : Pkg)
    (deps hdeps : list Pkg) :
  P (name sub) (reference sub) /\ every P sub ->
  Forall (fun d => P (name d) (reference d) /\ every P d) deps ->
  Forall (fun d => P (name d) (reference d) /\ every P d) hdeps ->
  Forall (fun d => P (name d) (reference d) /\ every P d)
    (fst (hoist_step sub (deps, hdeps))) /\
  Forall (fun d => P (name d) (reference d) /\ every P d)
    (snd (hoist_step sub (deps, hdeps))).
Proof.
  intros Hsub Hd Hh. unfold hoist_step. cbn [fst snd]. split.
  - destruct (find_by_name (name sub) deps); [exact Hd|].
    apply Forall_app. split; [exact Hd | now constructor].
  - destruct (hoisted_or_subsumed _ _); [|exact Hh].
    destruct (splice_from_take (findIndex_by_name (name sub) hdeps) hdeps) as [k ->].
    now apply every_take.
Qed.

Lemma hoist_inner_every (P : string -> string -> Prop)
    (snapshot deps hdeps : list Pkg) :
  Forall (fun d => P (name d) (reference d) /\ every P d) snapshot ->
  Forall (fun d => P (name d) (reference d) /\ every P d) deps ->
  Forall (fun d => P (name d) (reference d) /\ every P d) hdeps ->
  Forall (fun d => P (name d) (reference d) /\ every P d)
    (fst (hoist_inner snapshot (deps, hdeps))) /\
  Forall (fun d => P (name d) (reference d) /\ every P d)
    (snd (hoist_inner snapshot (deps, hdeps))).
Proof.
  revert deps hdeps.
  induction snapshot as [|sub rest IH]; intros deps hdeps Hsnap Hd Hh;
    cbn [hoist_inner]; [now split|].
  inversion Hsnap as [|? ? Hsub Hrest]; subst.
  destruct (hoist_step_every P sub deps hdeps Hsub Hd Hh) as [Hd1 Hh1].
  destruct (hoist_step sub (deps, hdeps)) as [deps1 hdeps1]. cbn [fst snd] in *.
  now apply IH.
Qed.

Lemma hoist_outer_every (P : string -> string -> Prop) (positions : list nat)
    (deps : list Pkg) :
  Forall (fun d => P (name d) (reference d) /\ every P d) deps ->
  Forall (fun d => P (name d) (reference d) /\ every P d) (hoist_outer positions deps).
Proof.
  revert deps. induction positions as [|i rest IH]; intros deps Hd;
    cbn [hoist_outer]; [exact Hd|].
  destruct (deps !! i) as [hd|] eqn:Hi; [|exact Hd].
  assert (Hhd : P (name hd) (reference hd) /\ every P hd).
  { rewrite Forall_forall in Hd. apply Hd. eapply list_elem_of_lookup_2. exact Hi. }
  destruct hd as [n r hds]. destruct Hhd as [HP Hev].
  apply (proj1 (every_node P n r hds)) in Hev.
  cbn [dependencies name reference].
  destruct (hoist_inner_every P hds deps hds Hev Hd Hev) as [Hd1 Hh1].
  destruct (hoist_inner hds (deps, hds)) as [deps1 hdeps1]. cbn [fst snd] in *.
  apply IH. apply Forall_insert; [exact Hd1|].
  split; [exact HP|]. now apply every_node.
Qed.

(** X20.  [optimizePackageTree] invents no package: a property of names
    and references that holds of every node below the root of the input
    holds of every node below the root of the result. *)
Theorem optimizePackageTree_every (P : string -> string -> Prop) (t : Pkg) :
  every P t -> every P (optimizePackageTree t).
Proof.
  induction t as [n r ds IH] using Pkg_ind'. intros Ht.
  apply (proj1 (every_node P n r ds)) in Ht.
  cbn [optimizePackageTree]. apply (proj2 (every_node _ _ _ _)).
  apply hoist_outer_every. apply Forall_forall. intros d' Hd'.
  apply list_elem_of_In, in_map_iff in Hd'. destruct Hd' as (d & <- & Hd).
  apply list_elem_of_In in Hd. rewrite Forall_forall in IH, Ht.
  destruct (Ht d Hd) as [HP Hev].
  destruct d as [dn dr dds]. split; [exact HP|]. now apply (IH _ Hd).
Qed.

Lemma hoist_outer_leaves (positions : list nat) (deps : list Pkg) :
  Forall (fun d => dependencies d = []) deps ->
  hoist_outer positions deps = deps.
Proof.
  intros Hleaf. induction positions as [|i rest IH]; cbn [hoist_outer];
    [reflexivity|].
  destruct (deps !! i) as [hd|] eqn:Hi; [|reflexivity].
  assert (Hhd : dependencies hd = []).
  { rewrite Forall_forall in Hleaf. apply Hleaf.
    eapply list_elem_of_lookup_2. exact Hi. }
  rewrite Hhd. cbn [hoist_inner]. rewrite list_insert_id; [exact IH|].
  rewrite Hi. destruct hd as [n r hds]. cbn in Hhd. now subst hds.
Qed.

(** X21.  A tree without grandchildren is left as it is: when no child of
    the root has dependencies of its own, there is nothing to hoist. *)
Theorem optimizePackageTree_flat (n r : string) (ds : list Pkg) :
  Forall (fun d => dependencies d = []) ds ->
  optimizePackageTree (mkPkg n r ds) = mkPkg n r ds.
Proof.
  intros Hleaf. cbn [optimizePackageTree].
  assert (Hmap : List.map optimizePackageTree ds = ds).
  { induction Hleaf as [|d ds Hd _ IH]; [reflexivity|].
    cbn [List.map]. rewrite IH. f_equal.
    destruct d as [dn dr dds]. cbn in Hd. now subst dds. }
  rewrite Hmap. unfold hoist. now rewrite hoist_outer_leaves.
Qed.

(** ** The optimizer: what it never does *)

Lemma size_node (n r : string) (ds : list Pkg) : size (mkPkg n r ds) = S (sizes ds).
Proof. reflexivity. Qed.

Lemma sizes_app (l1 l2 : list Pkg) : sizes (l1 ++ l2) = sizes l1 + sizes l2.
Proof. induction l1 as [|d l1 IH]; simpl; [reflexivity | rewrite IH; lia]. Qed.

Lemma sizes_take_drop (a : nat) (l : list Pkg) :
  sizes (take a l) + sizes (drop a l) = sizes l.
Proof. rewrite <- sizes_app. now rewrite take_drop. Qed.

Lemma sizes_take_mono (a b : nat) (l : list Pkg) :
  a <= b -> sizes (take a l) <= sizes (take b l).
Proof.
  revert a b. induction l as [|d l IH]; intros a b Hab.
  - now rewrite !take_nil.
  - destruct a as [|a]; [simpl; lia|]. destruct b as [|b]; [lia|].
    simpl. specialize (IH a b). lia.
Qed.

Lemma sizes_take_S (j : nat) (l : list Pkg) (x : Pkg) :
  l !! j = Some x -> sizes (take (S j) l) = sizes (take j l) + size x.
Proof.
  revert j. induction l as [|d l IH]; intros j; [discriminate|].
  destruct j as [|j]; simpl.
  - intros [= ->]. destruct l; simpl; lia.
  - intros Hj. specialize (IH j Hj). simpl in IH. lia.
Qed.

Lemma sizes_insert (i : nat) (l : list Pkg) (x y : Pkg) :
  l !! i = Some x -> sizes (<[i:=y]> l) + size x = sizes l + size y.
Proof.
  revert i. induction l as [|d l IH]; intros i; [discriminate|].
  destruct i as [|i]; simpl.
  - intros [= ->]. lia.
  - intros Hi. specialize (IH i Hi). lia.
Qed.

Lemma findIndex_by_name_le (arr : list Pkg) (j : nat) (x : Pkg) :
  arr !! j = Some x ->
  exists i, findIndex_by_name (name x) arr = Some i /\ i <= j.
Proof.
  revert j. induction arr as [|d arr IH]; intros j; [discriminate|].
  simpl. destruct (String.eqb_spec (name d) (name x)) as [_|Hne].
  - intros _. exists 0. split; [reflexivity | lia].
  - destruct j as [|j]; simpl.
    + intros [= ->]. contradiction.
    + intros Hj. destruct (IH j Hj) as (i & -> & Hi). exists (S i).
      split; [reflexivity | lia].
Qed.

(** What [splice] leaves of a prefix of [l] is a shorter prefix of [l]. *)
Lemma splice_from_prefix (start : option nat) (k : nat) (l : list Pkg) :
  exists k', splice_from start (take k l) = take k' l /\ k' <= k /\
             (forall i, start = Some i -> k' <= i).
Proof.
  destruct start as [i|]; simpl.
  - exists (Nat.min i k). rewrite take_take. split; [reflexivity|].
    split; [lia|]. intros ? [= <-]. lia.
  - exists (Nat.min (length (take k l) - 1) k). rewrite take_take.
    split; [reflexivity|]. split; [lia | discriminate].
Qed.

(** The inner loop neither duplicates nor creates nodes.  [l] is the
    child's array before the loop, [j] the position the loop has reached
    and [take k l] what the splices have left of the array so far. *)
Lemma hoist_inner_sizes (l : list Pkg) :
  forall snapshot j k deps,
    snapshot = drop j l ->
    sizes (fst (hoist_inner snapshot (deps, take k l)))
    + sizes (snd (hoist_inner snapshot (deps, take k l)))
    <= sizes deps + sizes (take k l) + sizes (drop (Nat.max j k) l).
Proof.
  induction snapshot as [|sub rest IH]; intros j k deps Hsnap; cbn [hoist_inner].
  - cbn [fst snd]. lia.
  - assert (Hj : l !! j = Some sub).
    { rewrite <- (Nat.add_0_r j), <- lookup_drop, <- Hsnap. reflexivity. }
    assert (Hrest : rest = drop (S j) l).
    { replace (S j) with (j + 1) by lia. rewrite <- drop_drop, <- Hsnap. reflexivity. }
    destruct (splice_from_prefix (findIndex_by_name (name sub) (take k l)) k l)
      as (k1 & Hk1 & Hle & Hidx).
    pose proof (sizes_take_drop j l) as Fj.
    pose proof (sizes_take_drop (S j) l) as FSj.
    pose proof (sizes_take_drop k l) as Fk.
    pose proof (sizes_take_drop (Nat.max (S j) k1) l) as Fm.
    pose proof (sizes_take_S j l sub Hj) as E.
    pose proof (sizes_take_mono k1 k l Hle) as M1.
    pose proof (sizes_take_mono k1 (Nat.max (S j) k1) l ltac:(lia)) as M2.
    unfold hoist_step.
    destruct (find_by_name (name sub) deps) as [a|]; cbn [hoisted_or_subsumed].
    + destruct (String.eqb (reference a) (reference sub)).
      * rewrite Hk1. specialize (IH (S j) k1 deps Hrest).
        destruct (Nat.le_gt_cases k j) as [Hkj|Hkj].
        -- replace (Nat.max j k) with j by lia.
           replace (Nat.max (S j) k1) with (S j) in IH by lia. lia.
        -- replace (Nat.max j k) with k by lia. lia.
      * specialize (IH (S j) k deps Hrest).
        destruct (Nat.le_gt_cases k j) as [Hkj|Hkj].
        -- replace (Nat.max j k) with j by lia.
           replace (Nat.max (S j) k) with (S j) in IH by lia. lia.
        -- replace (Nat.max j k) with k by lia.
           replace (Nat.max (S j) k) with k in IH by lia. lia.
    + rewrite Hk1. specialize (IH (S j) k1 (deps ++ [sub]) Hrest).
      rewrite sizes_app in IH. cbn [sizes] in IH.
      destruct (Nat.le_gt_cases k j) as [Hkj|Hkj].
      * replace (Nat.max j k) with j by lia.
        replace (Nat.max (S j) k1) with (S j) in IH by lia. lia.
      * replace (Nat.max j k) with k by lia.
        assert (Hk1j : k1 <= j).
        { assert (Hin : take k l !! j = Some sub) by (rewrite lookup_take_lt; trivial).
          destruct (findIndex_by_name_le _ _ _ Hin) as (i & Hi & Hij).
          specialize (Hidx i Hi). lia. }
        pose proof (sizes_take_mono k1 j l Hk1j) as M3.
        replace (Nat.max (S j) k1) with (S j) in IH by lia. lia.
Qed.

Lemma hoist_outer_sizes (positions : list nat) (deps : list Pkg) :
  sizes (hoist_outer positions deps) <= sizes deps.
Proof.
  revert deps. induction positions as [|i rest IH]; intros deps; cbn [hoist_outer];
    [lia|].
  destruct (deps !! i) as [hd|] eqn:Hi; [|lia].
  pose proof (hoist_inner_sizes (dependencies hd) (dependencies hd) 0
                (length (dependencies hd)) deps eq_refl) as Hinner.
  rewrite firstn_all, Nat.max_0_l, drop_all in Hinner. cbn [sizes] in Hinner.
  destruct (hoist_inner_appends (dependencies hd) deps (dependencies hd))
    as [pushed Hp].
  destruct (hoist_inner (dependencies hd) (deps, dependencies hd)) as [deps1 hdeps1].
  cbn [fst snd] in *.
  specialize (IH (<[i:=mkPkg (name hd) (reference hd) hdeps1]> deps1)).
  assert (Hi1 : deps1 !! i = Some hd).
  { rewrite Hp, lookup_app_l by (eapply lookup_lt_Some; exact Hi). exact Hi. }
  pose proof (sizes_insert i deps1 hd (mkPkg (name hd) (reference hd) hdeps1) Hi1)
    as Hins.
  rewrite size_node in Hins. destruct hd as [n r hds]. rewrite size_node in Hins.
  cbn [dependencies] in *. lia.
Qed.

(** X22.  [optimizePackageTree] never duplicates a package: the tree it
    returns has at most as many nodes as the tree it was given. *)
Theorem optimizePackageTree_size (t : Pkg) :
  size (optimizePackageTree t) <= size t.
Proof.
  induction t as [n r ds IH] using Pkg_ind'.
  cbn [optimizePackageTree]. rewrite !size_node. apply le_n_S.
  etransitivity; [apply hoist_outer_sizes|].
  induction IH as [|d ds Hd _ IHds]; cbn [List.map sizes]; lia.
Qed.

(** ** Fetching and reading manifests *)

Section FetchProperties.
Context `{Host}.

Lemma is_path_truthy (reference : string) :
  is_path reference = true -> Js.truthy reference = true.
Proof. destruct reference; [discriminate | reflexivity]. Qed.

(** X23.  For a node whose reference is a path, the linker reads the file
    and extracts it the way it extracts a registry tarball, with the first
    component of every entry name stripped; a read error is thrown as it
    is and nothing is requested. *)
Theorem fetch_and_extract_path (fuel : nat) (name reference cwd : string)
    (st : State) :
  is_path reference = true ->
  fetch_and_extract (S fuel) name reference cwd st =
    match fs_readFile reference (fs st) with
    | inr packageBuffer => extractArchiveTo packageBuffer cwd 1 st
    | inl detail => (Throw (HostError FileSystem detail), st)
    end.
Proof.
  intros Hpath. unfold fetch_and_extract. rewrite (is_path_truthy _ Hpath).
  unfold bind. cbn [fetchPackage]. rewrite Hpath. unfold host_call.
  destruct (fs_readFile reference (fs st)); reflexivity.
Qed.

(** X24.  When the tarball of a package decodes to its end without an
    entry [<top>/package.json], [getPackageDependencies] throws
    [Couldn't find "package.json" inside the archive]. *)
Theorem getPackageDependencies_missing_manifest (fuel : nat) (d : Pkg)
    (packageBuffer : Buffer) (entries : list (string * Buffer)) (st : State) :
  fst (fetchPackage fuel (name d) (reference d) st) = Ok packageBuffer ->
  untar packageBuffer = (entries, None) ->
  Forall (fun entry => getFileName (fst entry) 1 <> Some "package.json") entries ->
  fst (getPackageDependencies fuel d st) =
    Throw (Error ("Couldn't find " ++ quote ++ "package.json" ++ quote
                  ++ " inside the archive")).
Proof.
  intros Hfetch Huntar Hnone. unfold getPackageDependencies. unfold bind at 1.
  destruct (fetchPackage fuel (name d) (reference d) st) as [o s1].
  cbn [fst] in Hfetch. subst o. unfold bind at 1.
  unfold readPackageJsonFromArchive, readFileFromArchive. rewrite Huntar.
  now rewrite (first_match_none _ _ _ Hnone).
Qed.

(** X25.  When the manifest of a package has no [dependencies] key,
    [getPackageDependencies] returns the empty list: the package is a
    leaf of the resolved tree. *)
Theorem getPackageDependencies_no_key (fuel : nat) (d : Pkg)
    (packageBuffer data : Buffer) (json : PackageJson) (st : State) :
  fst (fetchPackage fuel (name d) (reference d) st) = Ok packageBuffer ->
  first_match "package.json" 1 (fst (untar packageBuffer)) = Some data ->
  json_parse data = inr json ->
  pj_dependencies json = None ->
  fst (getPackageDependencies fuel d st) = Ok [].
Proof.
  intros Hfetch Hmatch Hparse Hnone. unfold getPackageDependencies. unfold bind at 1.
  destruct (fetchPackage fuel (name d) (reference d) st) as [o s1].
  cbn [fst] in Hfetch. subst o. unfold bind at 1.
  unfold readPackageJsonFromArchive, readFileFromArchive.
  destruct (untar packageBuffer) as [entries failure]. cbn [fst] in Hmatch.
  rewrite Hmatch. cbn [ret]. unfold bind at 1. rewrite Hparse. cbn [host_call ret].
  now rewrite Hnone.
Qed.

End FetchProperties.

(** ** The further properties on the concrete host *)

Lemma getPackageDependencyTree_ticks_witness :
  let H := sim_host registry_world in
  fst (getPackageDependencyTree 4 registry_project ∅ (initial_state ∅))
    = Ok registry_resolved /\
  total (pace (snd (getPackageDependencyTree 4 registry_project ∅ (initial_state ∅))))
    + 0
  = 1 + curr (pace (snd (getPackageDependencyTree 4 registry_project ∅
                           (initial_state ∅)))).
Proof.
  assert (Hok : fst (@getPackageDependencyTree (sim_host registry_world) 4
                       registry_project ∅ (initial_state ∅)) = Ok registry_resolved)
    by (vm_compute; reflexivity).
  split; [exact Hok|].
  exact (@getPackageDependencyTree_ticks (sim_host registry_world) 4
           registry_project ∅ (initial_state ∅) registry_resolved Hok).
Defined.

Lemma linkPackages_ticks_witness :
  let H := sim_host leaf_world in
  fst (linkPackages 3 leaf_tree "/dest" (initial_state ∅)) = Ok tt /\
  total (pace (snd (linkPackages 3 leaf_tree "/dest" (initial_state ∅)))) + 0
  = 1 + curr (pace (snd (linkPackages 3 leaf_tree "/dest" (initial_state ∅)))).
Proof.
  assert (Hok : fst (@linkPackages (sim_host leaf_world) 3 leaf_tree "/dest"
                       (initial_state ∅)) = Ok tt) by (vm_compute; reflexivity).
  split; [exact Hok|].
  exact (@linkPackages_ticks (sim_host leaf_world) 3 leaf_tree "/dest"
           (initial_state ∅) Hok).
Defined.

Lemma linkPackages_stops_when_resolution_throws_witness :
  let H := sim_host registry_world in
  fst (getPackageDependencyTree 4 registry_tree ∅
         (snd (pace_total_incr (initial_state ∅))))
    = Throw (Error (unsatisfied_message "^5.0.0" "c")) /\
  fst (linkPackages 4 registry_tree "/dest" (initial_state ∅))
    = Throw (Error (unsatisfied_message "^5.0.0" "c")) /\
  fs (snd (linkPackages 4 registry_tree "/dest" (initial_state ∅))) = ∅.
Proof.
  assert (Hthrow : fst (@getPackageDependencyTree (sim_host registry_world) 4
                          registry_tree ∅ (snd (pace_total_incr (initial_state ∅))))
                   = Throw (Error (unsatisfied_message "^5.0.0" "c")))
    by (vm_compute; reflexivity).
  split; [exact Hthrow|].
  destruct (@linkPackages_stops_when_resolution_throws (sim_host registry_world) 4
              "" "" [mkPkg "a" "1.2.0" []; mkPkg "b" "1.0.0" []] "/dest"
              (initial_state ∅) _ Hthrow) as [Hres Hfs].
  split; [exact (f_equal fst Hres) | exact Hfs].
Defined.

Lemma run_scripts_stops_at_failure_witness :
  let H := with_shell (sim_host []) strict_shell in
  run_scripts "/dest/spm_node_modules/a" failing_scripts (initial_state ∅) =
    (Throw (HostError Shell "Command failed: exit 1"),
     mkState {[ "/dest/spm_node_modules/a/.script" := Text "mkdir build" ]}
       ∅ (mkPace 1 0 false) [] []).
Proof.
  exact (@run_scripts_stops_at_failure (with_shell (sim_host []) strict_shell)
           "/dest/spm_node_modules/a" failing_scripts "mkdir build" "exit 1"
           "Command failed: exit 1"
           {[ "/dest/spm_node_modules/a/.script" := Text "mkdir build" ]}
           (initial_state ∅) eq_refl eq_refl eq_refl eq_refl eq_refl eq_refl).
Defined.

Lemma run_scripts_skips_missing_witness :
  let H := sim_host [] in
  Forall (fun phase => forall script,
            Js.prop phase idle_scripts = Some script -> Js.truthy script = false)
    ["preinstall"; "install"; "postinstall"] /\
  run_scripts "/dest/spm_node_modules/a" idle_scripts (initial_state ∅)
    = (Ok tt, initial_state ∅).
Proof.
  assert (Hidle : Forall (fun phase => forall script,
                            Js.prop phase idle_scripts = Some script ->
                            Js.truthy script = false)
                    ["preinstall"; "install"; "postinstall"]).
  { repeat constructor; intros script [= <-]; reflexivity. }
  split; [exact Hidle|].
  exact (@run_scripts_skips_missing (sim_host []) "/dest/spm_node_modules/a"
           idle_scripts (initial_state ∅) Hidle).
Defined.

Lemma optimizePackageTree_every_witness :
  every (fun _ reference => Js.truthy reference = true) ex_tree /\
  every (fun _ reference => Js.truthy reference = true) (optimizePackageTree ex_tree).
Proof.
  assert (Hin : every (fun _ reference => Js.truthy reference = true) ex_tree).
  { simpl. repeat split. }
  split; [exact Hin | exact (optimizePackageTree_every _ ex_tree Hin)].
Defined.

Lemma optimizePackageTree_flat_witness :
  Forall (fun d => dependencies d = []) (dependencies registry_tree) /\
  optimizePackageTree registry_tree = registry_tree.
Proof.
  assert (Hleaf : Forall (fun d => dependencies d = [])
                    [mkPkg "a" "1.2.0" []; mkPkg "b" "1.0.0" []]).
  { repeat constructor. }
  split; [exact Hleaf | exact (optimizePackageTree_flat "" "" _ Hleaf)].
Defined.

Lemma fetch_and_extract_path_witness :
  let H := sim_host [] in
  is_path "./a.tgz" = true /\
  fst (fetch_and_extract 1 "a" "./a.tgz" "/dest/spm_node_modules/a"
         (initial_state local_files)) = Ok tt /\
  fs (snd (fetch_and_extract 1 "a" "./a.tgz" "/dest/spm_node_modules/a"
             (initial_state local_files)))
    !! "/dest/spm_node_modules/a/package.json" = Some (Manifest (manifest_with [])).
Proof.
  split; [reflexivity|].
  rewrite (@fetch_and_extract_path (sim_host []) 0 "a" "./a.tgz"
             "/dest/spm_node_modules/a" (@initial_state (sim_host []) local_files)
             eq_refl).
  split; vm_compute; reflexivity.
Defined.

Lemma getPackageDependencies_missing_manifest_witness :
  let H := sim_host broken_world in
  fst (getPackageDependencies 2 (descriptor "a" "1.0.0") (initial_state ∅)) =
    Throw (Error (not_found_message "package.json")).
Proof.
  apply (@getPackageDependencies_missing_manifest (sim_host broken_world) 2
           (descriptor "a" "1.0.0")
           (Tarball [("package/index.js", Text "exports.x = 1")])
           [("package/index.js", Text "exports.x = 1")] (initial_state ∅)).
  - vm_compute. reflexivity.
  - reflexivity.
  - repeat constructor. discriminate.
Defined.

Lemma getPackageDependencies_no_key_witness :
  let H := sim_host leaf_world in
  fst (getPackageDependencies 2 (descriptor "a" "1.0.0") (initial_state ∅)) = Ok [].
Proof.
  apply (@getPackageDependencies_no_key (sim_host leaf_world) 2
           (descriptor "a" "1.0.0")
           (Tarball [("package/package.json",
                      Manifest (mkPackageJson None None
                                  (Some [("install", "touch installed")])))])
           (Manifest (mkPackageJson None None (Some [("install", "touch installed")])))
           (mkPackageJson None None (Some [("install", "touch installed")]))
           (initial_state ∅)).
  - vm_compute. reflexivity.
  - reflexivity.
  - reflexivity.
  - reflexivity.
Defined.

Lemma link_dependency_ok_no_bin_witness :
  let H := sim_host leaf_world in
  let recur := linkPackages 3 in
  fst (link_dependency recur "/dest" (mkPkg "a" "1.0.0" []) (initial_state ∅)) = Ok tt /\
  exists json,
    fst (require "/dest/spm_node_modules/a/package.json"
           (snd (recur (mkPkg "a" "1.0.0" []) "/dest/spm_node_modules/a"
                   (initial_state ∅)))) = Ok json /\
    default [] (pj_bin json) = [].
Proof.
  assert (Hok : fst (@link_dependency (sim_host leaf_world)
                       (@linkPackages (sim_host leaf_world) 3) "/dest"
                       (mkPkg "a" "1.0.0" []) (initial_state ∅)) = Ok tt)
    by (vm_compute; reflexivity).
  split; [exact Hok|].
  exact (@link_dependency_ok_no_bin (sim_host leaf_world)
           (@linkPackages (sim_host leaf_world) 3) "/dest" (mkPkg "a" "1.0.0" [])
           (initial_state ∅) Hok).
Defined.
